(** * libs/hwui/Snapshot.cpp: the save/restore snapshot node

    A shallow embedding of [android::uirenderer::Snapshot] and a
    verification of its clip, transform and visibility operations.

    Snapshots point at each other's storage: a node built without the
    clip save flag holds a pointer to its parent's rectangle, so the model
    keeps every node in one store and represents a pointer to a node's
    [mClipRectRoot], [mClipRegionRoot] or [mTransformRoot] by the index of
    that node.  Dereferencing an index outside the store (a null or
    dangling pointer in C++) makes the operation fail with [None].

    Coordinates are [float] in the source.  They are modelled by exact
    rationals: rounding, infinities and NaN are outside the model.  The
    conversion to the integer coordinates of [android::Rect] truncates
    toward zero, as the implicit C++ conversion does. *)

From Stdlib Require Import ZArith QArith Lia.
From stdpp Require Import base option list.

Set Default Proof Using "Type".

(** ** Geometry value types *)

Definition float : Type := Q.

(** The implicit conversions between [float] and [int32_t].  Converting
    a float to an integer truncates toward zero, and C++ defines the
    result only when the truncated value is an [int32_t]: that is
    [fits_int32].  [float_to_int] is the conversion on that range;
    outside it the result depends on the platform, and every statement
    that names a converted rectangle assumes [Rect_fits_int32]. *)
Definition float_to_int (x : float) : Z := Z.quot (Qnum x) (Zpos (Qden x)).
Definition int_to_float (n : Z) : float := inject_Z n.

Definition fits_int32 (x : float) : bool :=
  (- 2 ^ 31 <=? float_to_int x)%Z && (float_to_int x <? 2 ^ 31)%Z.

(** [uirenderer::Rect]: four public float fields. *)
Module Rect.
Record t : Type := mk { left : float; top : float; right : float; bottom : float }.
End Rect.

(** [android::Rect] (libs/ui): four public integer fields. *)
Module ARect.
Record t : Type := mk { left : Z; top : Z; right : Z; bottom : Z }.
End ARect.

(** Every coordinate of the rectangle converts to an [int32_t]. *)
Definition Rect_fits_int32 (r : Rect.t) : bool :=
  fits_int32 (Rect.left r) && fits_int32 (Rect.top r) &&
  fits_int32 (Rect.right r) && fits_int32 (Rect.bottom r).

(** [android::Rect tmp(l, t, r, b)] called with float arguments. *)
Definition ARect_of_floats (l t r b : float) : ARect.t :=
  ARect.mk (float_to_int l) (float_to_int t) (float_to_int r) (float_to_int b).

(** [clipRect->set(bounds.left, bounds.top, bounds.right, bounds.bottom)]. *)
Definition Rect_of_ARect (b : ARect.t) : Rect.t :=
  Rect.mk (int_to_float (ARect.left b)) (int_to_float (ARect.top b))
          (int_to_float (ARect.right b)) (int_to_float (ARect.bottom b)).

(** [SkRegion::Op], in declaration order. *)
Inductive Op : Type :=
  | kDifference_Op
  | kIntersect_Op
  | kUnion_Op
  | kXOR_Op
  | kReverseDifference_Op
  | kReplace_Op.

(** ** The collaborators of Snapshot.cpp

    Rect.h, Matrix.h, the Region class and the constants of Snapshot.h,
    SkCanvas.h and Properties.h are not part of the translated sources.
    Their methods are taken as parameters: every mutating method maps the
    receiver (first argument) and the call's arguments to the receiver's
    new value, paired with the result when the method returns one. *)
Class Geometry : Type := {
  (* uirenderer::Rect *)
  Rect_new : Rect.t;
  Rect_setEmpty : Rect.t → Rect.t;
  Rect_intersect : Rect.t → Rect.t → bool * Rect.t;
  Rect_unionWith : Rect.t → Rect.t → bool * Rect.t;
  (* android::Region *)
  Region : Type;
  Region_new : Region;
  Region_set : Region → ARect.t → Region;
  Region_clear : Region → Region;
  Region_merge : Region → Region → Region;
  Region_orSelf : Region → ARect.t → Region;
  Region_xorSelf : Region → ARect.t → Region;
  Region_andSelf : Region → ARect.t → Region;
  Region_subtractSelf : Region → ARect.t → Region;
  Region_isEmpty : Region → bool;
  Region_isRect : Region → bool;
  Region_bounds : Region → ARect.t;
  (* uirenderer::Matrix4 *)
  mat4 : Type;
  mat4_new : mat4;
  mat4_load : mat4 → mat4 → mat4;
  mat4_loadTranslate : mat4 → float → float → float → mat4;
  mat4_loadInverse : mat4 → mat4 → mat4;
  mat4_mapRect : mat4 → Rect.t → Rect.t
}.

Class Config : Type := {
  STENCIL_BUFFER_SIZE : Z;
  kMatrix_SaveFlag : Z;
  kClip_SaveFlag : Z;
  kFlagClipSet : Z;
  kFlagFboTarget : Z
}.

(** [#if STENCIL_BUFFER_SIZE] *)
Definition stencil `{Config} : bool := negb (STENCIL_BUFFER_SIZE =? 0)%Z.

(** [if (x & FLAG)] *)
Definition has_flag (x flag : Z) : bool := negb (Z.land x flag =? 0)%Z.

(** ** The snapshot node and the store *)

(** A pointer to a node, or to one of its three roots, is the node's index. *)
Abbreviation ptr := nat.

(** Addresses of objects that live outside the snapshot chain
    ([Layer*], the dirty [Region*]). *)
Abbreviation addr := nat.

(** ** A state monad with failure

    [None] stands for the undefined behaviour of dereferencing a null or
    dangling pointer. *)

Definition M (S A : Type) : Type := S → option (A * S).

Definition ret {S A} (a : A) : M S A := λ h, Some (a, h).

Definition bind {S A B} (m : M S A) (k : A → M S B) : M S B :=
  λ h, match m h with
       | Some (a, h') => k a h'
       | None => None
       end.

Definition fail {S A} : M S A := λ _, None.

Notation "x <- m ;; k" := (bind m (λ x, k))
  (at level 100, m at next level, right associativity).
Notation "m ;;; k" := (bind m (λ _, k))
  (at level 100, right associativity).

Section Model.
Context `{G : Geometry} `{C : Config}.

Record Snapshot : Type := mkSnapshot {
  flags : Z;
  previous : option ptr;
  layer : option addr;
  fbo : Z;
  invisible : bool;
  empty : bool;
  viewport : Rect.t;
  height : Z;
  alpha : float;
  transform : ptr;
  clipRect : ptr;
  region : option addr;
  clipRegion : option ptr;
  mTransformRoot : mat4;
  mClipRectRoot : Rect.t;
  mClipRegionRoot : Region;
  mLocalClip : Rect.t
}.

Definition set_flags (v : Z) (s : Snapshot) : Snapshot :=
  mkSnapshot v (previous s) (layer s) (fbo s) (invisible s) (empty s)
    (viewport s) (height s) (alpha s) (transform s) (clipRect s) (region s)
    (clipRegion s) (mTransformRoot s) (mClipRectRoot s) (mClipRegionRoot s)
    (mLocalClip s).

Definition set_transform (v : ptr) (s : Snapshot) : Snapshot :=
  mkSnapshot (flags s) (previous s) (layer s) (fbo s) (invisible s) (empty s)
    (viewport s) (height s) (alpha s) v (clipRect s) (region s)
    (clipRegion s) (mTransformRoot s) (mClipRectRoot s) (mClipRegionRoot s)
    (mLocalClip s).

Definition set_clipRect (v : ptr) (s : Snapshot) : Snapshot :=
  mkSnapshot (flags s) (previous s) (layer s) (fbo s) (invisible s) (empty s)
    (viewport s) (height s) (alpha s) (transform s) v (region s)
    (clipRegion s) (mTransformRoot s) (mClipRectRoot s) (mClipRegionRoot s)
    (mLocalClip s).

Definition set_clipRegion (v : option ptr) (s : Snapshot) : Snapshot :=
  mkSnapshot (flags s) (previous s) (layer s) (fbo s) (invisible s) (empty s)
    (viewport s) (height s) (alpha s) (transform s) (clipRect s) (region s)
    v (mTransformRoot s) (mClipRectRoot s) (mClipRegionRoot s)
    (mLocalClip s).

Definition set_mTransformRoot (v : mat4) (s : Snapshot) : Snapshot :=
  mkSnapshot (flags s) (previous s) (layer s) (fbo s) (invisible s) (empty s)
    (viewport s) (height s) (alpha s) (transform s) (clipRect s) (region s)
    (clipRegion s) v (mClipRectRoot s) (mClipRegionRoot s)
    (mLocalClip s).

Definition set_mClipRectRoot (v : Rect.t) (s : Snapshot) : Snapshot :=
  mkSnapshot (flags s) (previous s) (layer s) (fbo s) (invisible s) (empty s)
    (viewport s) (height s) (alpha s) (transform s) (clipRect s) (region s)
    (clipRegion s) (mTransformRoot s) v (mClipRegionRoot s)
    (mLocalClip s).

Definition set_mClipRegionRoot (v : Region) (s : Snapshot) : Snapshot :=
  mkSnapshot (flags s) (previous s) (layer s) (fbo s) (invisible s) (empty s)
    (viewport s) (height s) (alpha s) (transform s) (clipRect s) (region s)
    (clipRegion s) (mTransformRoot s) (mClipRectRoot s) v
    (mLocalClip s).

Definition set_mLocalClip (v : Rect.t) (s : Snapshot) : Snapshot :=
  mkSnapshot (flags s) (previous s) (layer s) (fbo s) (invisible s) (empty s)
    (viewport s) (height s) (alpha s) (transform s) (clipRect s) (region s)
    (clipRegion s) (mTransformRoot s) (mClipRectRoot s) (mClipRegionRoot s)
    v.

(** The store: node [i] lives at index [i]. *)
Local Abbreviation Heap := (list Snapshot).

(** ** Access to the store *)

(** [*p] for a node pointer. *)
Definition deref (p : ptr) : M Heap Snapshot :=
  λ h, match h !! p with
       | Some s => Some (s, h)
       | None => None
       end.

(** An assignment to fields of [*p]. *)
Definition modify (p : ptr) (f : Snapshot → Snapshot) : M Heap unit :=
  λ h, match h !! p with
       | Some _ => Some (tt, alter f p h)
       | None => None
       end.

(** [new Snapshot]: the address the node will get, and its placement. *)
Definition next_address : M Heap ptr := λ h, Some (length h, h).
Definition place (s : Snapshot) : M Heap unit := λ h, Some (tt, h ++ [s]).

(** [p->method(...)] where [p] points at a node's [mClipRectRoot]. *)
Definition onRect {A} (p : ptr) (f : Rect.t → A * Rect.t) : M Heap A :=
  s <- deref p ;;
  modify p (set_mClipRectRoot (snd (f (mClipRectRoot s)))) ;;;
  ret (fst (f (mClipRectRoot s))).

(** [p->set(...)] on a rectangle: plain assignment of the four fields. *)
Definition setRect (p : ptr) (r : Rect.t) : M Heap unit :=
  onRect p (λ _, (tt, r)).

(** [p->method(...)] where [p] points at a node's [mClipRegionRoot];
    a null [p] is a fault. *)
Definition onRegion (p : option ptr) (f : Region → Region) : M Heap unit :=
  match p with
  | Some q => modify q (λ s, set_mClipRegionRoot (f (mClipRegionRoot s)) s)
  | None => fail
  end.

(** [p->method(...)] where [p] points at a node's [mTransformRoot]. *)
Definition onTransform (p : ptr) (f : mat4 → mat4) : M Heap unit :=
  modify p (λ s, set_mTransformRoot (f (mTransformRoot s)) s).

Definition readRect (p : ptr) : M Heap Rect.t :=
  s <- deref p ;; ret (mClipRectRoot s).

Definition readRegion (p : option ptr) : M Heap Region :=
  match p with
  | Some q => s <- deref q ;; ret (mClipRegionRoot s)
  | None => fail
  end.

Definition readTransform (p : ptr) : M Heap mat4 :=
  s <- deref p ;; ret (mTransformRoot s).

(** ** Constructors *)

(** [Snapshot::Snapshot()].  The constructor leaves [height]
    uninitialised; its indeterminate value is the argument [height0].
    [viewport], [mLocalClip] and the three roots are default-constructed. *)
Definition Snapshot_root (height0 : Z) : M Heap ptr :=
  this <- next_address ;;
  place (mkSnapshot 0%Z None None 0%Z false false Rect_new height0 1%Q
           this this None None mat4_new Rect_new Region_new Rect_new) ;;;
  ret this.

(** [Snapshot::Snapshot(const sp<Snapshot>& s, int saveFlags)]. *)
Definition Snapshot_copy (s : ptr) (saveFlags : Z) : M Heap ptr :=
  this <- next_address ;;
  ps <- deref s ;;
  tr <- (if has_flag saveFlags kMatrix_SaveFlag then
           m <- readTransform (transform ps) ;;
           ret (mat4_load mat4_new m, this)
         else ret (mat4_new, transform ps)) ;;
  cl <- (if has_flag saveFlags kClip_SaveFlag then
           cr <- readRect (clipRect ps) ;;
           if stencil then
             match clipRegion ps with
             | Some q =>
                 rg <- readRegion (Some q) ;;
                 ret (cr, this, Region_merge Region_new rg, Some this)
             | None => ret (cr, this, Region_new, None)
             end
           else ret (cr, this, Region_new, None)
         else
           ret (Rect_new, clipRect ps, Region_new,
                if stencil then clipRegion ps else None)) ;;
  let '(mClipRectRoot', clipRect', mClipRegionRoot', clipRegion') := cl in
  let fl := if has_flag (flags ps) kFlagFboTarget
            then (Z.lor 0 kFlagFboTarget, region ps) else (0%Z, None) in
  place (mkSnapshot (fst fl) (Some s) None (fbo ps) (invisible ps) false
           (viewport ps) (height ps) (alpha ps)
           (snd tr) clipRect' (snd fl) clipRegion'
           (fst tr) mClipRectRoot' mClipRegionRoot' Rect_new) ;;;
  ret this.

(** ** Clipping *)

Definition ensureClipRegion (this : ptr) : M Heap unit :=
  if stencil then
    s <- deref this ;;
    match clipRegion s with
    | None =>
        modify this (set_clipRegion (Some this)) ;;;
        cr <- readRect (clipRect s) ;;
        let tmp := ARect_of_floats (Rect.left cr) (Rect.top cr)
                                   (Rect.right cr) (Rect.bottom cr) in
        onRegion (Some this) (λ rg, Region_set rg tmp)
    | Some _ => ret tt
    end
  else ret tt.

Definition copyClipRectFromRegion (this : ptr) : M Heap unit :=
  if stencil then
    s <- deref this ;;
    rg <- readRegion (clipRegion s) ;;
    if negb (Region_isEmpty rg) then
      let bounds := Region_bounds rg in
      setRect (clipRect s) (Rect_of_ARect bounds) ;;;
      rg' <- readRegion (clipRegion s) ;;
      if Region_isRect rg' then
        onRegion (clipRegion s) Region_clear ;;;
        modify this (set_clipRegion None)
      else ret tt
    else
      onRect (clipRect s) (λ r, (tt, Rect_setEmpty r)) ;;;
      modify this (set_clipRegion None)
  else ret tt.

Definition clipRegionOr (this : ptr) (left top right bottom : float) : M Heap bool :=
  if stencil then
    let tmp := ARect_of_floats left top right bottom in
    s <- deref this ;;
    onRegion (clipRegion s) (λ rg, Region_orSelf rg tmp) ;;;
    copyClipRectFromRegion this ;;;
    ret true
  else ret false.

Definition clipRegionXor (this : ptr) (left top right bottom : float) : M Heap bool :=
  if stencil then
    let tmp := ARect_of_floats left top right bottom in
    s <- deref this ;;
    onRegion (clipRegion s) (λ rg, Region_xorSelf rg tmp) ;;;
    copyClipRectFromRegion this ;;;
    ret true
  else ret false.

Definition clipRegionAnd (this : ptr) (left top right bottom : float) : M Heap bool :=
  if stencil then
    let tmp := ARect_of_floats left top right bottom in
    s <- deref this ;;
    onRegion (clipRegion s) (λ rg, Region_andSelf rg tmp) ;;;
    copyClipRectFromRegion this ;;;
    ret true
  else ret false.

Definition clipRegionNand (this : ptr) (left top right bottom : float) : M Heap bool :=
  if stencil then
    let tmp := ARect_of_floats left top right bottom in
    s <- deref this ;;
    onRegion (clipRegion s) (λ rg, Region_subtractSelf rg tmp) ;;;
    copyClipRectFromRegion this ;;;
    ret true
  else ret false.

(** [flags |= Snapshot::kFlagClipSet] *)
Definition set_clip_flag (s : Snapshot) : Snapshot :=
  set_flags (Z.lor (flags s) kFlagClipSet) s.

Definition setClip (this : ptr) (left top right bottom : float) : M Heap unit :=
  s <- deref this ;;
  setRect (clipRect s) (Rect.mk left top right bottom) ;;;
  (if stencil then
     match clipRegion s with
     | Some q =>
         onRegion (Some q) Region_clear ;;;
         modify this (set_clipRegion None)
     | None => ret tt
     end
   else ret tt) ;;;
  modify this set_clip_flag.

Definition clipTransformed (this : ptr) (r : Rect.t) (op : Op) : M Heap bool :=
  clipped <-
    match op with
    | kDifference_Op =>
        ensureClipRegion this ;;;
        clipRegionNand this (Rect.left r) (Rect.top r) (Rect.right r) (Rect.bottom r)
    | kIntersect_Op =>
        s <- deref this ;;
        match clipRegion s with
        | Some _ =>
            clipRegionOr this (Rect.left r) (Rect.top r) (Rect.right r) (Rect.bottom r)
        | None =>
            clipped <- onRect (clipRect s) (λ c, Rect_intersect c r) ;;
            if negb clipped then
              onRect (clipRect s) (λ c, (tt, Rect_setEmpty c)) ;;;
              ret true
            else ret clipped
        end
    | kUnion_Op =>
        s <- deref this ;;
        match clipRegion s with
        | Some _ =>
            clipRegionAnd this (Rect.left r) (Rect.top r) (Rect.right r) (Rect.bottom r)
        | None =>
            onRect (clipRect s) (λ c, Rect_unionWith c r)
        end
    | kXOR_Op =>
        ensureClipRegion this ;;;
        clipRegionXor this (Rect.left r) (Rect.top r) (Rect.right r) (Rect.bottom r)
    | kReverseDifference_Op =>
        ret false
    | kReplace_Op =>
        setClip this (Rect.left r) (Rect.top r) (Rect.right r) (Rect.bottom r) ;;;
        ret true
    end ;;
  (if clipped : bool then modify this set_clip_flag else ret tt) ;;;
  ret clipped.

Definition clip (this : ptr) (left top right bottom : float) (op : Op) : M Heap bool :=
  s <- deref this ;;
  m <- readTransform (transform s) ;;
  clipTransformed this (mat4_mapRect m (Rect.mk left top right bottom)) op.

Definition getLocalClip (this : ptr) : M Heap Rect.t :=
  s <- deref this ;;
  m <- readTransform (transform s) ;;
  let inverse := mat4_loadInverse mat4_new m in
  cr <- readRect (clipRect s) ;;
  modify this (set_mLocalClip cr) ;;;
  modify this (λ s, set_mLocalClip (mat4_mapRect inverse (mLocalClip s)) s) ;;;
  s' <- deref this ;;
  ret (mLocalClip s').

Definition resetClip (this : ptr) (left top right bottom : float) : M Heap unit :=
  modify this (set_clipRect this) ;;;
  setClip this left top right bottom.

(** ** Transforms *)

Definition resetTransform (this : ptr) (x y z : float) : M Heap unit :=
  modify this (set_transform this) ;;;
  s <- deref this ;;
  onTransform (transform s) (λ m, mat4_loadTranslate m x y z).

(** ** Queries *)

Definition isIgnored (this : ptr) : M Heap bool :=
  s <- deref this ;;
  ret (invisible s || empty s).

(** ** Observations on the store *)

(** [*n->clipRect], the current clip rectangle of node [n]. *)
Definition clipRect_of (h : Heap) (n : ptr) : option Rect.t :=
  s ← h !! n; mClipRectRoot <$> h !! clipRect s.

(** [n->clipRegion], and the region it points at when it is not null. *)
Definition clipRegion_ptr (h : Heap) (n : ptr) : option (option ptr) :=
  clipRegion <$> h !! n.

Definition region_at (h : Heap) (p : ptr) : option Region :=
  mClipRegionRoot <$> h !! p.

Definition clipRegion_of (h : Heap) (n : ptr) : option (option Region) :=
  s ← h !! n;
  match clipRegion s with
  | Some p => rg ← region_at h p; Some (Some rg)
  | None => Some None
  end.

(** [*n->transform]. *)
Definition transform_of (h : Heap) (n : ptr) : option mat4 :=
  s ← h !! n; mTransformRoot <$> h !! transform s.

Definition flags_of (h : Heap) (n : ptr) : option Z :=
  flags <$> h !! n.

(** ** Vocabulary of the statements *)

(** [android::Rect tmp(clipRect->left, ...)] *)
Definition ARect_of_Rect (r : Rect.t) : ARect.t :=
  ARect_of_floats (Rect.left r) (Rect.top r) (Rect.right r) (Rect.bottom r).

(** The collapse rule in the specification's words, against which
    [copyClipRectFromRegion] is compared.  The rectangle after a
    collapse: the region's bounds, or the emptied rectangle when the
    region is empty. *)
Definition collapse_rect (rg : Region) (old : Rect.t) : Rect.t :=
  if Region_isEmpty rg then Rect_setEmpty old
  else Rect_of_ARect (Region_bounds rg).

(** The specification's condition for dropping the region reference:
    the region is empty or a single rectangle. *)
Definition collapse_discards (rg : Region) : bool :=
  Region_isEmpty rg || Region_isRect rg.

(** The region storage after a collapse: cleared when the region was a
    single rectangle, untouched otherwise. *)
Definition collapse_region (rg : Region) : Region :=
  if negb (Region_isEmpty rg) && Region_isRect rg then Region_clear rg else rg.

(** What a caller sees of node [n] after a region of value [rg] has been
    collapsed: the rectangle, the region behind [clipRegion] (if any),
    the region storage [p] and the flags. *)
Definition collapsed (rg : Region) (old : Rect.t) (fl : Z) (p n : ptr) (h' : Heap) : Prop :=
  clipRect_of h' n = Some (collapse_rect rg old) ∧
  clipRegion_of h' n = Some (if collapse_discards rg then None else Some rg) ∧
  region_at h' p = Some (collapse_region rg) ∧
  flags_of h' n = Some (Z.lor fl kFlagClipSet).

(** The region reference of node [n] is null, or it points at a region
    that is neither empty nor a single rectangle. *)
Definition region_ref_genuine (h : Heap) (n : ptr) : bool :=
  match clipRegion_of h n with
  | Some (Some rg) => negb (collapse_discards rg)
  | _ => true
  end.

(** The rectangle left by a rectangle-mode intersect: the receiver as
    [intersect] leaves it, emptied when [intersect] answers false. *)
Definition intersected (cur r : Rect.t) : Rect.t :=
  if fst (Rect_intersect cur r) then snd (Rect_intersect cur r)
  else Rect_setEmpty (snd (Rect_intersect cur r)).

(** The common shape of [clipRegionOr], [clipRegionXor], [clipRegionAnd]
    and [clipRegionNand] when region support is compiled in. *)
Definition region_op (f : Region → Region) (this : ptr) : M Heap bool :=
  s <- deref this ;;
  onRegion (clipRegion s) f ;;;
  copyClipRectFromRegion this ;;;
  ret true.

(** The tail of [clipTransformed]: the clip flag is set when the
    operation answers true. *)
Definition with_flag (m : M Heap bool) (n : ptr) : M Heap bool :=
  clipped <- m ;;
  (if clipped : bool then modify n set_clip_flag else ret tt) ;;;
  ret clipped.

(** Node [n] owns its clip state: its rectangle pointer and (if set) its
    region pointer are its own roots; its transform can be read. *)
Definition clip_private (h : Heap) (n : ptr) : Prop :=
  ∃ s, h !! n = Some s ∧ clipRect s = n ∧
       (clipRegion s = None ∨ clipRegion s = Some n) ∧
       is_Some (h !! transform s).

(** Only node [n] differs between two stores. *)
Definition only_changes (n : ptr) (h h' : Heap) : Prop :=
  ∀ k, k ≠ n → h' !! k = h !! k.

(** No node of the store has [empty] set. *)
Definition empty_clear (h : Heap) : Prop :=
  ∀ k s, h !! k = Some s → empty s = false.

(** No node of the store holds a region reference. *)
Definition no_region (h : Heap) : Prop :=
  ∀ k s, h !! k = Some s → clipRegion s = None.

(** A computation keeps an invariant of the store. *)
Definition preserves {A} (P : Heap → Prop) (m : M Heap A) : Prop :=
  ∀ h a h', P h → m h = Some (a, h') → P h'.

(** ** The public operations as calls *)

(** The calls that change the clip of node [n]. *)
Inductive ClipCall : Type :=
  | ByClip (left top right bottom : float) (op : Op)
  | ByClipTransformed (r : Rect.t) (op : Op)
  | BySetClip (left top right bottom : float)
  | ByResetClip (left top right bottom : float).

Definition clip_call (n : ptr) (c : ClipCall) : M Heap unit :=
  match c with
  | ByClip l t r b op => clip n l t r b op ;;; ret tt
  | ByClipTransformed r op => clipTransformed n r op ;;; ret tt
  | BySetClip l t r b => setClip n l t r b
  | ByResetClip l t r b => resetClip n l t r b
  end.

Fixpoint clip_calls (n : ptr) (cs : list ClipCall) : M Heap unit :=
  match cs with
  | [] => ret tt
  | c :: cs' => clip_call n c ;;; clip_calls n cs'
  end.

Inductive Call : Type :=
  | NewRoot (height0 : Z)
  | NewCopy (s : ptr) (saveFlags : Z)
  | DoClip (n : ptr) (left top right bottom : float) (op : Op)
  | DoClipTransformed (n : ptr) (r : Rect.t) (op : Op)
  | DoSetClip (n : ptr) (left top right bottom : float)
  | DoGetLocalClip (n : ptr)
  | DoResetClip (n : ptr) (left top right bottom : float)
  | DoResetTransform (n : ptr) (x y z : float)
  | DoIsIgnored (n : ptr).

Definition exec (c : Call) : M Heap unit :=
  match c with
  | NewRoot height0 => Snapshot_root height0 ;;; ret tt
  | NewCopy s saveFlags => Snapshot_copy s saveFlags ;;; ret tt
  | DoClip n l t r b op => clip n l t r b op ;;; ret tt
  | DoClipTransformed n r op => clipTransformed n r op ;;; ret tt
  | DoSetClip n l t r b => setClip n l t r b
  | DoGetLocalClip n => getLocalClip n ;;; ret tt
  | DoResetClip n l t r b => resetClip n l t r b
  | DoResetTransform n x y z => resetTransform n x y z
  | DoIsIgnored n => isIgnored n ;;; ret tt
  end.

Fixpoint run (cs : list Call) : M Heap unit :=
  match cs with
  | [] => ret tt
  | c :: cs' => exec c ;;; run cs'
  end.

(** ** Vocabulary of the further properties *)

(** Node [s], living at index [k], points only at itself or at older
    nodes: its transform, its rectangle and its region are its own roots
    or roots of nodes built before it, and its parent was built before
    it. *)
Definition node_ok (k : ptr) (s : Snapshot) : Prop :=
  transform s ≤ k ∧ clipRect s ≤ k ∧
  (∀ p, clipRegion s = Some p → p ≤ k) ∧
  (∀ q, previous s = Some q → q < k).

Definition well_formed (h : Heap) : Prop :=
  ∀ k s, h !! k = Some s → node_ok k s.

(** The node a call works on (the parent, for the copying constructor). *)
Definition call_target (c : Call) : option ptr :=
  match c with
  | NewRoot _ => None
  | NewCopy s _ => Some s
  | DoClip n _ _ _ _ _ => Some n
  | DoClipTransformed n _ _ => Some n
  | DoSetClip n _ _ _ _ => Some n
  | DoGetLocalClip n => Some n
  | DoResetClip n _ _ _ _ => Some n
  | DoResetTransform n _ _ _ => Some n
  | DoIsIgnored n => Some n
  end.

(** The number of nodes a call allocates. *)
Definition call_adds (c : Call) : nat :=
  match c with
  | NewRoot _ | NewCopy _ _ => 1
  | _ => 0
  end.

(** Every call of the sequence works on a node that exists when the
    call is made, in a store that has [L] nodes at the start. *)
Fixpoint calls_valid (L : nat) (cs : list Call) : bool :=
  match cs with
  | [] => true
  | c :: cs' =>
      match call_target c with
      | Some n => n <? L
      | None => true
      end && calls_valid (L + call_adds c) cs'
  end.

(** The fields that only the constructors write. *)
Definition frozen (s : Snapshot)
  : option ptr * option addr * Z * bool * bool * Rect.t * Z * float * option addr :=
  (previous s, layer s, fbo s, invisible s, empty s, viewport s, height s,
   alpha s, region s).

(** Node [k] exists and satisfies [R]. *)
Definition node_keeps (k : ptr) (R : Snapshot → Prop) (h : Heap) : Prop :=
  ∃ s, h !! k = Some s ∧ R s.

(** [R] survives every assignment that the clip operations and
    [getLocalClip] make to a node. *)
Definition clip_writes_keep (R : Snapshot → Prop) : Prop :=
  (∀ s, R s → R (set_clip_flag s)) ∧
  (∀ v s, R s → R (set_clipRegion v s)) ∧
  (∀ v s, R s → R (set_clipRect v s)) ∧
  (∀ v s, R s → R (set_mClipRectRoot v s)) ∧
  (∀ v s, R s → R (set_mClipRegionRoot v s)) ∧
  (∀ v s, R s → R (set_mLocalClip v s)).

(** [R] survives the assignments of [resetTransform] as well. *)
Definition transform_writes_keep (R : Snapshot → Prop) : Prop :=
  (∀ v s, R s → R (set_transform v s)) ∧
  (∀ v s, R s → R (set_mTransformRoot v s)).

(** The call is a difference or xor clip: the two operations that force
    region mode. *)
Definition enters_region_mode (c : Call) : bool :=
  match c with
  | DoClip _ _ _ _ _ (kDifference_Op | kXOR_Op) => true
  | DoClipTransformed _ _ (kDifference_Op | kXOR_Op) => true
  | _ => false
  end.

(** The call is a [resetTransform] on node [k]. *)
Definition resets_transform (k : ptr) (c : Call) : bool :=
  match c with
  | DoResetTransform n _ _ _ => bool_decide (n = k)
  | _ => false
  end.

End Model.

Abbreviation Heap := (list Snapshot).

(** ** Reference collaborators

    The general results below hold for every [Geometry] and [Config].
    The concrete scenarios of the specification are run on the following
    instances. *)

Module SpecRect.

(** Modelled from the spec: Rect.h is not among the sources.  The larger
    of two coordinates. *)
Definition fmax (a b : float) : float := if Qle_bool a b then b else a.

(** Modelled from the spec: Rect.h is not among the sources.  The
    smaller of two coordinates. *)
Definition fmin (a b : float) : float := if Qle_bool a b then a else b.

(** Modelled from the spec: Rect.h is not among the sources.  The spec's
    "is-empty query": a rectangle without area. *)
Definition isEmpty (r : Rect.t) : bool :=
  Qle_bool (Rect.right r) (Rect.left r) || Qle_bool (Rect.bottom r) (Rect.top r).

(** Modelled from the spec: Rect.h is not among the sources.  The
    spec's "set-empty" forces a rectangle to the empty rectangle; the
    default rectangle of a fresh node is the same one. *)
Definition setEmpty (_ : Rect.t) : Rect.t := Rect.mk 0%Q 0%Q 0%Q 0%Q.

(** Modelled from the spec: Rect.h is not among the sources.  The
    spec's "fast rectangle-intersect": the receiver becomes the
    intersection and the call answers true, unless the intersection is
    empty, in which case the call answers false and the caller forces
    the rectangle to empty. *)
Definition intersect (c r : Rect.t) : bool * Rect.t :=
  let tmp := Rect.mk (fmax (Rect.left c) (Rect.left r)) (fmax (Rect.top c) (Rect.top r))
                     (fmin (Rect.right c) (Rect.right r)) (fmin (Rect.bottom c) (Rect.bottom r)) in
  if isEmpty tmp then (false, c) else (true, tmp).

(** Modelled from the spec: Rect.h is not among the sources.  The
    spec's "fast rectangle-union (bounding box)": an empty argument
    changes nothing, an empty receiver becomes the argument. *)
Definition unionWith (c r : Rect.t) : bool * Rect.t :=
  if isEmpty r then (false, c)
  else if isEmpty c then (true, r)
  else (true, Rect.mk (fmin (Rect.left c) (Rect.left r)) (fmin (Rect.top c) (Rect.top r))
                      (fmax (Rect.right c) (Rect.right r)) (fmax (Rect.bottom c) (Rect.bottom r))).

End SpecRect.

Module SpecRegion.

(** Modelled from the spec: the Region class is not among the sources.
    The spec asks for "a region type supporting boolean set operations
    and rectangle extraction".  A region is a finite union of
    half-open integer rectangles; a boolean operation cuts the plane
    along every edge of both operands and keeps the cells on which the
    operation holds. *)
Definition t : Type := list ARect.t.

(** Modelled from the spec: the Region class is not among the sources.
    A rectangle with area. *)
Definition rect_nonempty (r : ARect.t) : bool :=
  (ARect.left r <? ARect.right r)%Z && (ARect.top r <? ARect.bottom r)%Z.

(** Modelled from the spec: the Region class is not among the sources.
    The point (x, y) lies in the half-open rectangle. *)
Definition in_rect (x y : Z) (r : ARect.t) : bool :=
  (ARect.left r <=? x)%Z && (x <? ARect.right r)%Z &&
  (ARect.top r <=? y)%Z && (y <? ARect.bottom r)%Z.

(** Modelled from the spec: the Region class is not among the sources.
    The point (x, y) lies in the region. *)
Definition member (x y : Z) (a : t) : bool := existsb (in_rect x y) a.

(** Modelled from the spec: the Region class is not among the sources.
    Insertion into a strictly increasing list of cuts. *)
Fixpoint insert_cut (x : Z) (l : list Z) : list Z :=
  match l with
  | [] => [x]
  | y :: l' =>
      if (x <? y)%Z then x :: l
      else if (x =? y)%Z then l
      else y :: insert_cut x l'
  end.

(** Modelled from the spec: the Region class is not among the sources.
    The coordinates, sorted and without repetition. *)
Definition cuts (coords : list Z) : list Z := foldr insert_cut [] coords.

(** Modelled from the spec: the Region class is not among the sources.
    The vertical edges of a region. *)
Definition xcoords (a : t) : list Z :=
  flat_map (λ r, [ARect.left r; ARect.right r]) a.

(** Modelled from the spec: the Region class is not among the sources.
    The horizontal edges of a region. *)
Definition ycoords (a : t) : list Z :=
  flat_map (λ r, [ARect.top r; ARect.bottom r]) a.

(** Modelled from the spec: the Region class is not among the sources.
    Consecutive pairs of a sorted list of cuts. *)
Fixpoint spans (l : list Z) : list (Z * Z) :=
  match l with
  | x :: ((y :: _) as l') => (x, y) :: spans l'
  | _ => []
  end.

(** Modelled from the spec: the Region class is not among the sources.
    The cells of the common grid of two regions on which [f] holds. *)
Definition combine_with (f : bool → bool → bool) (a b : t) : t :=
  let xs := spans (cuts (xcoords a ++ xcoords b)) in
  let ys := spans (cuts (ycoords a ++ ycoords b)) in
  flat_map (λ ysp,
    flat_map (λ xsp,
      if f (member (fst xsp) (fst ysp) a) (member (fst xsp) (fst ysp) b)
      then [ARect.mk (fst xsp) (fst ysp) (snd xsp) (snd ysp)]
      else []) xs) ys.

(** Modelled from the spec: the Region class is not among the sources.
    "Construct from rectangle". *)
Definition of_rect (r : ARect.t) : t := if rect_nonempty r then [r] else [].

(** Modelled from the spec: the Region class is not among the sources.
    The region becomes the rectangle. *)
Definition set (_ : t) (r : ARect.t) : t := of_rect r.

(** Modelled from the spec: the Region class is not among the sources.
    "Clear": the region becomes empty. *)
Definition clear (_ : t) : t := [].

(** Modelled from the spec: the Region class is not among the sources.
    The private copy of a parent's region made by a clip-preserving
    save: the union of the receiver with the other region. *)
Definition merge (a b : t) : t := combine_with orb a b.

(** Modelled from the spec: the Region class is not among the sources.
    "OR with a rectangle". *)
Definition orSelf (a : t) (r : ARect.t) : t := combine_with orb a (of_rect r).

(** Modelled from the spec: the Region class is not among the sources.
    "AND with a rectangle". *)
Definition andSelf (a : t) (r : ARect.t) : t := combine_with andb a (of_rect r).

(** Modelled from the spec: the Region class is not among the sources.
    "XOR with a rectangle". *)
Definition xorSelf (a : t) (r : ARect.t) : t := combine_with xorb a (of_rect r).

(** Modelled from the spec: the Region class is not among the sources.
    "Subtract a rectangle". *)
Definition subtractSelf (a : t) (r : ARect.t) : t :=
  combine_with (λ x y, x && negb y) a (of_rect r).

(** Modelled from the spec: the Region class is not among the sources.
    "Is-empty". *)
Definition isEmpty (a : t) : bool := negb (existsb rect_nonempty a).

(** Modelled from the spec: the Region class is not among the sources.
    "Bounds extraction": the smallest rectangle around the region. *)
Definition bounds (a : t) : ARect.t :=
  match filter (λ r, rect_nonempty r = true) a with
  | [] => ARect.mk 0%Z 0%Z 0%Z 0%Z
  | r :: l =>
      foldr (λ q acc,
               ARect.mk (Z.min (ARect.left q) (ARect.left acc))
                        (Z.min (ARect.top q) (ARect.top acc))
                        (Z.max (ARect.right q) (ARect.right acc))
                        (Z.max (ARect.bottom q) (ARect.bottom acc))) r l
  end.

(** Modelled from the spec: the Region class is not among the sources.
    The area of a rectangle. *)
Definition area (r : ARect.t) : Z :=
  if rect_nonempty r
  then ((ARect.right r - ARect.left r) * (ARect.bottom r - ARect.top r))%Z
  else 0%Z.

(** Modelled from the spec: the Region class is not among the sources.
    "Is-rectangle": the cells of a region made by [combine_with] are
    disjoint, so the region is one rectangle exactly when it fills its
    bounds. *)
Definition isRect (a : t) : bool :=
  let cells := combine_with orb a [] in
  negb (isEmpty cells) &&
  (foldr (λ r acc, (area r + acc)%Z) 0%Z cells =? area (bounds cells))%Z.

End SpecRegion.

Module SpecMatrix.

(** Modelled from the spec: Matrix.h is not among the sources.  The
    spec's transform is a "4×4 transform matrix with invert/map"; it is
    a list of four rows of four exact rationals.  A matrix without an
    inverse is inverted to the zero matrix (division by zero is zero in
    [Q]), which maps every rectangle to a zero-area one. *)
Definition t : Type := list (list Q).

(** Modelled from the spec: Matrix.h is not among the sources.  The
    entry in row [i], column [j]. *)
Definition entry (m : t) (i j : nat) : Q := nth j (nth i m []) 0%Q.

(** Modelled from the spec: Matrix.h is not among the sources.  The
    transform of a fresh node. *)
Definition identity : t :=
  [[1; 0; 0; 0]; [0; 1; 0; 0]; [0; 0; 1; 0]; [0; 0; 0; 1]]%Q.

(** Modelled from the spec: Matrix.h is not among the sources.
    "Load-from-other". *)
Definition load (_ : t) (v : t) : t := v.

(** Modelled from the spec: Matrix.h is not among the sources.
    "Load-translation": a pure translation by the given offsets. *)
Definition loadTranslate (_ : t) (x y z : float) : t :=
  [[1; 0; 0; x]; [0; 1; 0; y]; [0; 0; 1; z]; [0; 0; 0; 1]]%Q.

(** Modelled from the spec: Matrix.h is not among the sources.  A list
    without its [i]-th element. *)
Fixpoint drop_nth {A} (i : nat) (l : list A) : list A :=
  match l, i with
  | [], _ => []
  | _ :: l', O => l'
  | x :: l', S i' => x :: drop_nth i' l'
  end.

(** Modelled from the spec: Matrix.h is not among the sources.  The
    matrix without row [i] and column [j]. *)
Definition minor (i j : nat) (m : t) : t := map (drop_nth j) (drop_nth i m).

(** Modelled from the spec: Matrix.h is not among the sources.  The sign
    of a cofactor. *)
Definition sign (k : nat) : Q := if Nat.even k then 1%Q else (-1)%Q.

(** Modelled from the spec: Matrix.h is not among the sources.  The
    determinant of the leading [n]×[n] matrix, by expansion along the
    first row. *)
Fixpoint det (n : nat) (m : t) : Q :=
  match n with
  | O => 1%Q
  | S n' =>
      foldr (λ j acc, (sign j * entry m 0 j * det n' (minor 0 j m) + acc)%Q)
            0%Q (seq 0 n)
  end.

(** Modelled from the spec: Matrix.h is not among the sources.
    "Invert-into": the adjugate divided by the determinant. *)
Definition loadInverse (_ : t) (v : t) : t :=
  let d := det 4 v in
  map (λ i, map (λ j, Qred (sign (i + j) * det 3 (minor j i v) / d)) (seq 0 4))
      (seq 0 4).

(** Modelled from the spec: Matrix.h is not among the sources.  The
    image of the point (x, y, 0, 1), after the perspective divide. *)
Definition mapPoint (m : t) (x y : Q) : Q * Q :=
  let w := (entry m 3 0 * x + entry m 3 1 * y + entry m 3 3)%Q in
  (Qred ((entry m 0 0 * x + entry m 0 1 * y + entry m 0 3) / w),
   Qred ((entry m 1 0 * x + entry m 1 1 * y + entry m 1 3) / w)).

(** Modelled from the spec: Matrix.h is not among the sources.
    "Map-rectangle": the bounding box of the images of the four
    corners. *)
Definition mapRect (m : t) (r : Rect.t) : Rect.t :=
  let p1 := mapPoint m (Rect.left r) (Rect.top r) in
  let p2 := mapPoint m (Rect.right r) (Rect.top r) in
  let p3 := mapPoint m (Rect.right r) (Rect.bottom r) in
  let p4 := mapPoint m (Rect.left r) (Rect.bottom r) in
  let lo a b c d := SpecRect.fmin (SpecRect.fmin a b) (SpecRect.fmin c d) in
  let hi a b c d := SpecRect.fmax (SpecRect.fmax a b) (SpecRect.fmax c d) in
  Rect.mk (lo (fst p1) (fst p2) (fst p3) (fst p4))
          (lo (snd p1) (snd p2) (snd p3) (snd p4))
          (hi (fst p1) (fst p2) (fst p3) (fst p4))
          (hi (snd p1) (snd p2) (snd p3) (snd p4)).

End SpecMatrix.

(** Modelled from the spec: Rect.h, Matrix.h and the Region class are
    not among the sources.  The reference geometry, assembled from the
    three models above. *)
Definition spec_geometry : Geometry := {|
  Rect_new := Rect.mk 0%Q 0%Q 0%Q 0%Q;
  Rect_setEmpty := SpecRect.setEmpty;
  Rect_intersect := SpecRect.intersect;
  Rect_unionWith := SpecRect.unionWith;
  Region := SpecRegion.t;
  Region_new := [];
  Region_set := SpecRegion.set;
  Region_clear := SpecRegion.clear;
  Region_merge := SpecRegion.merge;
  Region_orSelf := SpecRegion.orSelf;
  Region_xorSelf := SpecRegion.xorSelf;
  Region_andSelf := SpecRegion.andSelf;
  Region_subtractSelf := SpecRegion.subtractSelf;
  Region_isEmpty := SpecRegion.isEmpty;
  Region_isRect := SpecRegion.isRect;
  Region_bounds := SpecRegion.bounds;
  mat4 := SpecMatrix.t;
  mat4_new := SpecMatrix.identity;
  mat4_load := SpecMatrix.load;
  mat4_loadTranslate := SpecMatrix.loadTranslate;
  mat4_loadInverse := SpecMatrix.loadInverse;
  mat4_mapRect := SpecMatrix.mapRect
|}.

(** Modelled from the spec: Snapshot.h, SkCanvas.h and Properties.h are
    not among the sources.  The flags are distinct bits and region
    support (the stencil buffer) is enabled. *)
Definition spec_config : Config := {|
  STENCIL_BUFFER_SIZE := 8;
  kMatrix_SaveFlag := 1;
  kClip_SaveFlag := 2;
  kFlagClipSet := 1;
  kFlagFboTarget := 32
|}.

(** Modelled from the spec: Snapshot.h, SkCanvas.h and Properties.h are
    not among the sources.  The same flags with region support
    disabled. *)
Definition spec_config_no_stencil : Config := {|
  STENCIL_BUFFER_SIZE := 0;
  kMatrix_SaveFlag := 1;
  kClip_SaveFlag := 2;
  kFlagClipSet := 1;
  kFlagFboTarget := 32
|}.

(** ** Scenarios *)

Module Scenario.

#[local] Existing Instance spec_geometry.

(** Stores over the reference geometry. *)
Abbreviation Store := (list (Snapshot (G:=spec_geometry))).

Definition Q4 (l t r b : Z) : Rect.t :=
  Rect.mk (inject_Z l) (inject_Z t) (inject_Z r) (inject_Z b).

(** The store reached from the empty store by a sequence of calls. *)
Definition store_after (C : Config) (cs : list Call) : Heap :=
  match run (C:=C) cs [] with
  | Some (_, h) => h
  | None => []
  end.

Definition blank : Snapshot :=
  mkSnapshot 0%Z None None 0%Z false false Rect_new 0%Z 1%Q 0 0 None None
             mat4_new Rect_new Region_new Rect_new.

Definition node (h : Heap) (k : ptr) : Snapshot := default blank (h !! k).

(** A root node clipped to the square (0,0,100,100). *)
Definition square_calls : list Call :=
  [NewRoot 0; DoSetClip 0 0%Q 0%Q 100%Q 100%Q].
Definition square : Heap :=
  Eval vm_compute in store_after spec_config square_calls.

(** The same root when region support is compiled out. *)
Definition square_no_stencil : Heap :=
  Eval vm_compute in store_after spec_config_no_stencil square_calls.

(** A root node clipped to the square (10,10,20,20). *)
Definition small_square : Heap :=
  Eval vm_compute in
    store_after spec_config [NewRoot 0; DoSetClip 0 10%Q 10%Q 20%Q 20%Q].

(** The square with its top-left quarter cut out: an L-shaped region. *)
Definition lshape_calls : list Call :=
  square_calls ++ [DoClipTransformed 0 (Q4 0 0 50 50) kDifference_Op].
Definition lshape : Heap :=
  Eval vm_compute in store_after spec_config lshape_calls.

(** The root nodes of these stores. *)
Definition square_root : Snapshot := Eval vm_compute in node square 0.
Definition square_no_stencil_root : Snapshot :=
  Eval vm_compute in node square_no_stencil 0.
Definition small_square_root : Snapshot := Eval vm_compute in node small_square 0.
Definition lshape_root : Snapshot := Eval vm_compute in node lshape 0.

(** The square root with a child built with save flags 0, which borrows
    the root's transform and clip. *)
Definition borrower : Heap :=
  Eval vm_compute in store_after spec_config (square_calls ++ [NewCopy 0 0]).
Definition borrower_child : Snapshot := Eval vm_compute in node borrower 1.

(** A child that borrows the L-shaped clip of the root, is detached
    with reset-clip, after which the root is queried. *)
Definition stale_calls : list Call :=
  lshape_calls ++ [NewCopy 0 0; DoResetClip 1 0%Q 0%Q 10%Q 10%Q; DoGetLocalClip 0].

End Scenario.

(** * Verification *)

(** Evaluates the left-hand side of an equation on the virtual machine,
    leaving its type alone. *)
Ltac vm_lhs :=
  match goal with
  | |- ?l = _ =>
      let v := eval vm_compute in l in
      transitivity v; [vm_cast_no_check (eq_refl v)|]
  end.

Section Verification.
Context `{G : Geometry} `{C : Config}.
Implicit Types (h : Heap) (n p c k : ptr) (s : Snapshot).

(** ** Running the monad *)

Lemma lookup_alter_Some h p k s (f : Snapshot → Snapshot) :
  h !! k = Some s →
  alter f p h !! k = Some (if decide (p = k) then f s else s).
Proof.
  intros Hk. destruct (decide (p = k)) as [->|Hne].
  - by rewrite list_lookup_alter_eq, Hk.
  - by rewrite list_lookup_alter_ne.
Qed.

Lemma lookup_alter_None h p k (f : Snapshot → Snapshot) :
  h !! k = None → alter f p h !! k = None.
Proof.
  intros Hk. destruct (decide (p = k)) as [->|Hne].
  - by rewrite list_lookup_alter_eq, Hk.
  - by rewrite list_lookup_alter_ne.
Qed.

(** One step of symbolic execution: expose the next store access and
    resolve it from the hypotheses. *)
Ltac heap_step :=
  first
    [ rewrite list_lookup_alter_eq
    | rewrite list_lookup_alter_ne by congruence
    | match goal with
      | H : ?h !! ?p = Some _ |- context [?h !! ?p] => rewrite H
      | H : ?h !! ?p = None |- context [?h !! ?p] => rewrite H
      | H : clipRegion ?s = _ |- context [clipRegion ?s] => rewrite H
      | H : clipRect ?s = _ |- context [clipRect ?s] => rewrite H
      | H : stencil = _ |- context [stencil] => rewrite H
      end
    | progress cbn [fmap option_fmap option_map mbind option_bind
                    fst snd negb andb orb
                    flags previous layer fbo invisible empty viewport height
                    alpha transform clipRect region clipRegion mTransformRoot
                    mClipRectRoot mClipRegionRoot mLocalClip
                    set_flags set_transform set_clipRect set_clipRegion
                    set_mTransformRoot set_mClipRectRoot set_mClipRegionRoot
                    set_mLocalClip set_clip_flag] ].

Ltac heap_run :=
  cbv beta delta [bind ret fail deref modify onRect setRect onRegion
                  onTransform readRect readRegion readTransform];
  repeat heap_step.

(** ** Queries (C9) *)

(** C9. [isIgnored] answers true exactly when [invisible] or [empty] is
    set, and false exactly when both are clear; it does not change the
    store. *)
Theorem isIgnored_iff h n s :
  h !! n = Some s →
  (isIgnored n h = Some (true, h) ↔ invisible s = true ∨ empty s = true) ∧
  (isIgnored n h = Some (false, h) ↔ invisible s = false ∧ empty s = false).
Proof.
  intros Hn. unfold isIgnored. heap_run.
  destruct (invisible s), (empty s); cbn; split; split; intros; intuition congruence.
Qed.

(** ** The unsupported operation (C5) *)

(** C5. A reverse-difference clip answers false and leaves the whole
    store as it was: no node's rectangle, region or flags change.  This
    holds for the already-transformed entry point without any
    assumption, and for [clip] as soon as the node and its transform can
    be read. *)
Theorem reverse_difference_noop h n r :
  clipTransformed n r kReverseDifference_Op h = Some (false, h) ∧
  ∀ s t left top right bottom,
    h !! n = Some s → h !! transform s = Some t →
    clip n left top right bottom kReverseDifference_Op h = Some (false, h).
Proof.
  split; [reflexivity|].
  intros s t l tp rt b Hn Ht. unfold clip. heap_run. reflexivity.
Qed.

(** ** Collapse *)

(** Two reads of one cell give one node. *)
Ltac same_cell :=
  repeat match goal with
  | H1 : ?h !! ?k = Some ?a, H2 : ?h !! ?k = Some ?b |- _ =>
      assert (b = a) by congruence; subst b; clear H2
  end.

(** The three pointers of a node ([this], its rectangle, its region) may
    coincide or not: all five arrangements. *)
Ltac split_ptrs n p c :=
  destruct (decide (p = n)) as [->|?];
  (destruct (decide (c = n)) as [->|?];
   [|try (destruct (decide (p = c)) as [->|?])]);
  same_cell.

Lemma copyClipRectFromRegion_post h n s p c sp sc :
  stencil = true →
  h !! n = Some s → clipRegion s = Some p → clipRect s = c →
  h !! p = Some sp → h !! c = Some sc →
  let rg := mClipRegionRoot sp in
  ∃ h' s' sp' sc',
    copyClipRectFromRegion n h = Some (tt, h') ∧
    h' !! n = Some s' ∧ h' !! p = Some sp' ∧ h' !! c = Some sc' ∧
    clipRect s' = c ∧ flags s' = flags s ∧
    clipRegion s' = (if collapse_discards rg then None else Some p) ∧
    mClipRectRoot sc' = collapse_rect rg (mClipRectRoot sc) ∧
    mClipRegionRoot sp' = collapse_region rg.
Proof.
  intros Hst Hn Hp Hc Hsp Hsc rg.
  unfold copyClipRectFromRegion, collapse_discards, collapse_rect, collapse_region.
  rewrite Hst.
  split_ptrs n p c; subst rg.
  all: heap_run.
  all: destruct (Region_isEmpty _) eqn:He; heap_run.
  all: try (destruct (Region_isRect _) eqn:Hr; heap_run).
  all: eexists _, _, _, _; split; [reflexivity|].
  all: repeat (split; [heap_run; reflexivity|]).
  all: heap_run; reflexivity.
Qed.

Lemma region_op_post f h n s p c sp sc :
  stencil = true →
  h !! n = Some s → clipRegion s = Some p → clipRect s = c →
  h !! p = Some sp → h !! c = Some sc →
  let rg := f (mClipRegionRoot sp) in
  ∃ h' s' sp' sc',
    region_op f n h = Some (true, h') ∧
    h' !! n = Some s' ∧ h' !! p = Some sp' ∧ h' !! c = Some sc' ∧
    clipRect s' = c ∧ flags s' = flags s ∧
    clipRegion s' = (if collapse_discards rg then None else Some p) ∧
    mClipRectRoot sc' = collapse_rect rg (mClipRectRoot sc) ∧
    mClipRegionRoot sp' = collapse_region rg.
Proof.
  intros Hst Hn Hp Hc Hsp Hsc rg. unfold region_op.
  set (g := λ s0 : Snapshot, set_mClipRegionRoot (f (mClipRegionRoot s0)) s0).
  assert (Hrun : (s0 <- deref n ;; onRegion (clipRegion s0) f) h
                 = Some (tt, alter g p h)) by (heap_run; reflexivity).
  destruct (copyClipRectFromRegion_post (alter g p h) n
              (if decide (p = n) then g s else s) p c
              (g sp) (if decide (p = c) then g sc else sc) Hst)
    as (h' & s' & sp' & sc' & Hrun' & Hn' & Hp' & Hc' & E1 & E2 & E3 & E4 & E5).
  - by apply lookup_alter_Some.
  - by case_decide.
  - by case_decide.
  - rewrite list_lookup_alter_eq, Hsp. done.
  - by apply lookup_alter_Some.
  - exists h', s', sp', sc'. split.
    + revert Hrun. cbv beta delta [bind ret]. intros Hrun.
      destruct (deref n h) as [[s0 h0]|]; [|done].
      rewrite Hrun, Hrun'. done.
    + subst g rg. cbn in *. split_and!; try done.
      * rewrite E2. by destruct (decide (p = n)).
      * rewrite E4. by destruct (decide (p = c)).
Qed.

Lemma collapse_region_kept rg :
  collapse_discards rg = false → collapse_region rg = rg.
Proof.
  unfold collapse_discards, collapse_region.
  by destruct (Region_isEmpty rg), (Region_isRect rg).
Qed.

Lemma flagged_region_op f h n s p c sp sc :
  stencil = true →
  h !! n = Some s → clipRegion s = Some p → clipRect s = c →
  h !! p = Some sp → h !! c = Some sc →
  ∃ h', (clipped <- region_op f n ;;
         (if clipped : bool then modify n set_clip_flag else ret tt) ;;;
         ret clipped) h = Some (true, h') ∧
        collapsed (f (mClipRegionRoot sp)) (mClipRectRoot sc) (flags s) p n h'.
Proof.
  intros Hst Hn Hp Hc Hsp Hsc.
  destruct (region_op_post f h n s p c sp sc Hst Hn Hp Hc Hsp Hsc)
    as (h' & s' & sp' & sc' & Hrun & Hn' & Hp' & Hc' & E1 & E2 & E3 & E4 & E5).
  exists (alter set_clip_flag n h'). split.
  - cbv beta delta [bind ret modify]. by rewrite Hrun, Hn'.
  - unfold collapsed, clipRect_of, clipRegion_of, region_at, flags_of.
    rewrite !list_lookup_alter_eq, Hn'. cbn. rewrite E1, E3.
    rewrite (lookup_alter_Some _ _ _ _ _ Hc'), (lookup_alter_Some _ _ _ _ _ Hp').
    cbn. split_and!.
    + destruct (decide (n = c)); cbn; by rewrite E4.
    + destruct (collapse_discards _) eqn:Hd; [done|].
      rewrite (lookup_alter_Some _ _ _ _ _ Hp'). cbn.
      rewrite <- (collapse_region_kept _ Hd).
      destruct (decide (n = p)); cbn; by rewrite E5.
    + destruct (decide (n = p)); cbn; by rewrite E5.
    + by rewrite E2.
Qed.

Lemma clipRegionOr_enabled n l t r b :
  stencil = true →
  clipRegionOr n l t r b = region_op (λ rg, Region_orSelf rg (ARect_of_floats l t r b)) n.
Proof. intros Hst. unfold clipRegionOr. by rewrite Hst. Qed.

Lemma clipRegionAnd_enabled n l t r b :
  stencil = true →
  clipRegionAnd n l t r b = region_op (λ rg, Region_andSelf rg (ARect_of_floats l t r b)) n.
Proof. intros Hst. unfold clipRegionAnd. by rewrite Hst. Qed.

Lemma clipRegionXor_enabled n l t r b :
  stencil = true →
  clipRegionXor n l t r b = region_op (λ rg, Region_xorSelf rg (ARect_of_floats l t r b)) n.
Proof. intros Hst. unfold clipRegionXor. by rewrite Hst. Qed.

Lemma clipRegionNand_enabled n l t r b :
  stencil = true →
  clipRegionNand n l t r b = region_op (λ rg, Region_subtractSelf rg (ARect_of_floats l t r b)) n.
Proof. intros Hst. unfold clipRegionNand. by rewrite Hst. Qed.

(** ** Region-mode intersect and union (C1) *)

Lemma intersect_region_mode h n s p c sp sc r :
  stencil = true →
  h !! n = Some s → clipRegion s = Some p → clipRect s = c →
  h !! p = Some sp → h !! c = Some sc →
  ∃ h', clipTransformed n r kIntersect_Op h = Some (true, h') ∧
        collapsed (Region_orSelf (mClipRegionRoot sp) (ARect_of_Rect r))
                  (mClipRectRoot sc) (flags s) p n h'.
Proof.
  intros Hst Hn Hp Hc Hsp Hsc.
  destruct (flagged_region_op (λ rg, Region_orSelf rg (ARect_of_Rect r))
              h n s p c sp sc) as (h' & Hrun & Hpost); try done.
  exists h'. split; [|done]. rewrite <- Hrun.
  unfold clipTransformed. rewrite clipRegionOr_enabled by done.
  cbv beta delta [bind deref]. by rewrite Hn, Hp.
Qed.

Lemma union_region_mode h n s p c sp sc r :
  stencil = true →
  h !! n = Some s → clipRegion s = Some p → clipRect s = c →
  h !! p = Some sp → h !! c = Some sc →
  ∃ h', clipTransformed n r kUnion_Op h = Some (true, h') ∧
        collapsed (Region_andSelf (mClipRegionRoot sp) (ARect_of_Rect r))
                  (mClipRectRoot sc) (flags s) p n h'.
Proof.
  intros Hst Hn Hp Hc Hsp Hsc.
  destruct (flagged_region_op (λ rg, Region_andSelf rg (ARect_of_Rect r))
              h n s p c sp sc) as (h' & Hrun & Hpost); try done.
  exists h'. split; [|done]. rewrite <- Hrun.
  unfold clipTransformed. rewrite clipRegionAnd_enabled by done.
  cbv beta delta [bind deref]. by rewrite Hn, Hp.
Qed.

(** C1. While a clip region is active (and region support is compiled
    in), an intersect clip ORs the rectangle into the region and
    collapses, and a union clip ANDs the rectangle into the region and
    collapses; both answer true and set the clip flag.  The rectangle
    is one whose coordinates convert to [int32_t], as the temporary
    [android::Rect] of [clipRegionOr] and [clipRegionAnd] requires. *)
Theorem region_mode_combinators h n s p c sp sc r :
  stencil = true →
  h !! n = Some s → clipRegion s = Some p → clipRect s = c →
  h !! p = Some sp → h !! c = Some sc →
  Rect_fits_int32 r = true →
  let tmp := ARect_of_floats (Rect.left r) (Rect.top r) (Rect.right r) (Rect.bottom r) in
  (∃ h', clipTransformed n r kIntersect_Op h = Some (true, h') ∧
         collapsed (Region_orSelf (mClipRegionRoot sp) tmp)
                   (mClipRectRoot sc) (flags s) p n h') ∧
  (∃ h', clipTransformed n r kUnion_Op h = Some (true, h') ∧
         collapsed (Region_andSelf (mClipRegionRoot sp) tmp)
                   (mClipRectRoot sc) (flags s) p n h').
Proof.
  intros Hst Hn Hp Hc Hsp Hsc _ tmp. split.
  - by apply (intersect_region_mode h n s p c sp sc r).
  - by apply (union_region_mode h n s p c sp sc r).
Qed.

(** ** Difference and xor: forced region mode (C2) *)

Lemma ensureClipRegion_fresh h n s c sc :
  stencil = true →
  h !! n = Some s → clipRegion s = None → clipRect s = c → h !! c = Some sc →
  let seed := Region_set (mClipRegionRoot s) (ARect_of_Rect (mClipRectRoot sc)) in
  ∃ h1 s1 sc1,
    ensureClipRegion n h = Some (tt, h1) ∧
    h1 !! n = Some s1 ∧ h1 !! c = Some sc1 ∧
    clipRegion s1 = Some n ∧ clipRect s1 = c ∧ flags s1 = flags s ∧
    mClipRegionRoot s1 = seed ∧ mClipRectRoot sc1 = mClipRectRoot sc.
Proof.
  intros Hst Hn Hp Hc Hsc seed. subst seed.
  unfold ensureClipRegion, ARect_of_Rect. rewrite Hst.
  destruct (decide (c = n)) as [->|?]; same_cell.
  all: heap_run.
  all: eexists _, _, _; split; [reflexivity|].
  all: split_and!.
  all: solve [heap_run; reflexivity].
Qed.

Lemma ensureClipRegion_active h n s p :
  h !! n = Some s → clipRegion s = Some p →
  ensureClipRegion n h = Some (tt, h).
Proof.
  intros Hn Hp. unfold ensureClipRegion.
  destruct stencil; [|done]. heap_run. reflexivity.
Qed.

Lemma forced_region_op_fresh f h n s c sc :
  stencil = true →
  h !! n = Some s → clipRegion s = None → clipRect s = c → h !! c = Some sc →
  let seed := Region_set (mClipRegionRoot s) (ARect_of_Rect (mClipRectRoot sc)) in
  ∃ h', with_flag (ensureClipRegion n ;;; region_op f n) n h = Some (true, h') ∧
        collapsed (f seed) (mClipRectRoot sc) (flags s) n n h'.
Proof.
  intros Hst Hn Hp Hc Hsc seed.
  destruct (ensureClipRegion_fresh h n s c sc Hst Hn Hp Hc Hsc)
    as (h1 & s1 & sc1 & Hrun1 & Hn1 & Hc1 & E1 & E2 & E3 & E4 & E5).
  destruct (flagged_region_op f h1 n s1 n c s1 sc1 Hst Hn1 E1 E2 Hn1 Hc1)
    as (h' & Hrun & Hpost).
  exists h'. split.
  - rewrite <- Hrun. unfold with_flag. cbv beta delta [bind]. by rewrite Hrun1.
  - by rewrite E3, E4, E5 in Hpost.
Qed.

Lemma forced_region_op_active f h n s p c sp sc :
  stencil = true →
  h !! n = Some s → clipRegion s = Some p → clipRect s = c →
  h !! p = Some sp → h !! c = Some sc →
  ∃ h', with_flag (ensureClipRegion n ;;; region_op f n) n h = Some (true, h') ∧
        collapsed (f (mClipRegionRoot sp)) (mClipRectRoot sc) (flags s) p n h'.
Proof.
  intros Hst Hn Hp Hc Hsp Hsc.
  destruct (flagged_region_op f h n s p c sp sc Hst Hn Hp Hc Hsp Hsc)
    as (h' & Hrun & Hpost).
  exists h'. split; [|done].
  rewrite <- Hrun. unfold with_flag. cbv beta delta [bind].
  by rewrite (ensureClipRegion_active h n s p Hn Hp).
Qed.

(** The difference op, on any geometry: region mode is entered if it is
    not active, seeding the region from the truncated clip rectangle;
    the rectangle is subtracted; the result is collapsed. *)
Lemma difference_forces_region h n s c sc r :
  stencil = true →
  h !! n = Some s → clipRect s = c → h !! c = Some sc →
  let tmp := ARect_of_Rect r in
  match clipRegion s with
  | None =>
      let seed := Region_set (mClipRegionRoot s) (ARect_of_Rect (mClipRectRoot sc)) in
      ∃ h', clipTransformed n r kDifference_Op h = Some (true, h') ∧
            collapsed (Region_subtractSelf seed tmp) (mClipRectRoot sc) (flags s) n n h'
  | Some p =>
      ∀ sp, h !! p = Some sp →
      ∃ h', clipTransformed n r kDifference_Op h = Some (true, h') ∧
            collapsed (Region_subtractSelf (mClipRegionRoot sp) tmp)
                      (mClipRectRoot sc) (flags s) p n h'
  end.
Proof.
  intros Hst Hn Hc Hsc tmp.
  assert (Hunf : clipTransformed n r kDifference_Op =
                 with_flag (ensureClipRegion n ;;;
                            region_op (λ rg, Region_subtractSelf rg tmp) n) n).
  { unfold clipTransformed. by rewrite clipRegionNand_enabled. }
  rewrite Hunf. destruct (clipRegion s) as [p|] eqn:Hp.
  - intros sp Hsp.
    by apply (forced_region_op_active (λ rg, Region_subtractSelf rg tmp) h n s p c sp sc).
  - by apply (forced_region_op_fresh (λ rg, Region_subtractSelf rg tmp) h n s c sc).
Qed.

(** ** Rectangle mode (C3) *)

Lemma fmap_lookup_alter {A} (proj : Snapshot → A) f p h k :
  (∀ s, proj (f s) = proj s) →
  proj <$> alter f p h !! k = proj <$> h !! k.
Proof.
  intros Hf. destruct (decide (p = k)) as [->|?].
  - rewrite list_lookup_alter_eq. destruct (h !! k); cbn; [|done]. by rewrite Hf.
  - by rewrite list_lookup_alter_ne.
Qed.

Lemma clipRect_of_alter f p h k :
  (∀ s, clipRect (f s) = clipRect s) →
  (∀ s, mClipRectRoot (f s) = mClipRectRoot s) →
  clipRect_of (alter f p h) k = clipRect_of h k.
Proof.
  intros Hptr Hval. unfold clipRect_of.
  destruct (decide (p = k)) as [->|?].
  - rewrite list_lookup_alter_eq. destruct (h !! k); cbn; [|done].
    rewrite Hptr. by apply fmap_lookup_alter.
  - rewrite list_lookup_alter_ne by done. destruct (h !! k); cbn; [|done].
    by apply fmap_lookup_alter.
Qed.

Lemma transform_of_alter f p h k :
  (∀ s, transform (f s) = transform s) →
  (∀ s, mTransformRoot (f s) = mTransformRoot s) →
  transform_of (alter f p h) k = transform_of h k.
Proof.
  intros Hptr Hval. unfold transform_of.
  destruct (decide (p = k)) as [->|?].
  - rewrite list_lookup_alter_eq. destruct (h !! k); cbn; [|done].
    rewrite Hptr. by apply fmap_lookup_alter.
  - rewrite list_lookup_alter_ne by done. destruct (h !! k); cbn; [|done].
    by apply fmap_lookup_alter.
Qed.

Lemma clip_is_clipTransformed h n s t left top right bottom op :
  h !! n = Some s → h !! transform s = Some t →
  clip n left top right bottom op h =
  clipTransformed n (mat4_mapRect (mTransformRoot t) (Rect.mk left top right bottom)) op h.
Proof. intros Hn Ht. unfold clip. heap_run. reflexivity. Qed.

Lemma rect_mode_intersect h n s c sc r :
  h !! n = Some s → clipRegion s = None → clipRect s = c → h !! c = Some sc →
  ∃ h', clipTransformed n r kIntersect_Op h = Some (true, h') ∧
        clipRect_of h' n = Some (intersected (mClipRectRoot sc) r) ∧
        flags_of h' n = Some (Z.lor (flags s) kFlagClipSet) ∧
        (∀ k, clipRegion_ptr h' k = clipRegion_ptr h k) ∧
        (∀ k, region_at h' k = region_at h k).
Proof.
  intros Hn Hp Hc Hsc.
  unfold clipTransformed, intersected, clipRect_of, flags_of, clipRegion_ptr, region_at.
  destruct (decide (c = n)) as [->|?]; same_cell.
  all: heap_run.
  all: destruct (Rect_intersect _ r) as [[] c'] eqn:Hi; heap_run.
  all: eexists; split; [reflexivity|].
  all: split_and!; [solve [heap_run; reflexivity] .. | |].
  all: intros k; by rewrite !fmap_lookup_alter.
Qed.

Lemma rect_mode_union h n s c sc r :
  h !! n = Some s → clipRegion s = None → clipRect s = c → h !! c = Some sc →
  let clipped := fst (Rect_unionWith (mClipRectRoot sc) r) in
  ∃ h', clipTransformed n r kUnion_Op h = Some (clipped, h') ∧
        clipRect_of h' n = Some (snd (Rect_unionWith (mClipRectRoot sc) r)) ∧
        flags_of h' n = Some (if clipped then Z.lor (flags s) kFlagClipSet else flags s) ∧
        (∀ k, clipRegion_ptr h' k = clipRegion_ptr h k) ∧
        (∀ k, region_at h' k = region_at h k).
Proof.
  intros Hn Hp Hc Hsc.
  unfold clipTransformed, clipRect_of, flags_of, clipRegion_ptr, region_at.
  destruct (decide (c = n)) as [->|?]; same_cell.
  all: heap_run.
  all: destruct (Rect_unionWith _ r) as [[] c'] eqn:Hi; heap_run.
  all: eexists; split; [reflexivity|].
  all: split_and!; [solve [heap_run; reflexivity] .. | |].
  all: intros k; by rewrite !fmap_lookup_alter.
Qed.

(** ** Region support compiled out (C6) *)

Lemma stencil_off : STENCIL_BUFFER_SIZE = 0%Z → stencil = false.
Proof. unfold stencil. by intros ->. Qed.

(** C6. With [STENCIL_BUFFER_SIZE] zero, difference and xor clips, and
    intersect and union clips on a node that holds a region, answer
    false and leave the whole store unchanged; intersect and union on a
    node without a region work on the rectangle as usual. *)
Theorem region_support_disabled h n r :
  STENCIL_BUFFER_SIZE = 0%Z →
  clipTransformed n r kDifference_Op h = Some (false, h) ∧
  clipTransformed n r kXOR_Op h = Some (false, h) ∧
  (∀ s t left top right bottom,
     h !! n = Some s → h !! transform s = Some t →
     clip n left top right bottom kDifference_Op h = Some (false, h) ∧
     clip n left top right bottom kXOR_Op h = Some (false, h)) ∧
  (∀ s p, h !! n = Some s → clipRegion s = Some p →
     clipTransformed n r kIntersect_Op h = Some (false, h) ∧
     clipTransformed n r kUnion_Op h = Some (false, h)) ∧
  (∀ s c sc,
     h !! n = Some s → clipRegion s = None → clipRect s = c → h !! c = Some sc →
     (∃ h', clipTransformed n r kIntersect_Op h = Some (true, h') ∧
            clipRect_of h' n = Some (intersected (mClipRectRoot sc) r)) ∧
     (∃ h', clipTransformed n r kUnion_Op h
              = Some (fst (Rect_unionWith (mClipRectRoot sc) r), h') ∧
            clipRect_of h' n = Some (snd (Rect_unionWith (mClipRectRoot sc) r)))).
Proof.
  intros Hoff%stencil_off.
  assert (Hd : ∀ r', clipTransformed n r' kDifference_Op h = Some (false, h)).
  { intros r'. unfold clipTransformed, ensureClipRegion, clipRegionNand.
    by rewrite Hoff. }
  assert (Hx : ∀ r', clipTransformed n r' kXOR_Op h = Some (false, h)).
  { intros r'. unfold clipTransformed, ensureClipRegion, clipRegionXor.
    by rewrite Hoff. }
  split_and!; [done | done | | |].
  - intros s t l tp rt b Hn Ht.
    by rewrite !(clip_is_clipTransformed h n s t).
  - intros s p Hn Hp.
    unfold clipTransformed, clipRegionOr, clipRegionAnd. rewrite Hoff.
    heap_run. done.
  - intros s c sc Hn Hp Hc Hsc. split.
    + destruct (rect_mode_intersect h n s c sc r) as (h' & ? & ? & _); eauto.
    + destruct (rect_mode_union h n s c sc r) as (h' & ? & ? & _); eauto.
Qed.

(** ** Direct set and reset *)

Lemma setClip_post h n s c sc left top right bottom :
  h !! n = Some s → clipRect s = c → h !! c = Some sc →
  (∀ p, clipRegion s = Some p → stencil = true → is_Some (h !! p)) →
  ∃ h', setClip n left top right bottom h = Some (tt, h') ∧
        clipRect_of h' n = Some (Rect.mk left top right bottom) ∧
        flags_of h' n = Some (Z.lor (flags s) kFlagClipSet) ∧
        clipRegion_ptr h' n = Some (if stencil then None else clipRegion s).
Proof.
  intros Hn Hc Hsc Hvalid.
  unfold setClip, clipRect_of, flags_of, clipRegion_ptr.
  destruct stencil eqn:Hst; [destruct (clipRegion s) as [p|] eqn:Hp|].
  - destruct (Hvalid p) as [sp Hsp]; [done..|].
    split_ptrs n p c.
    all: heap_run.
    all: eexists; split; [reflexivity|].
    all: split_and!; solve [heap_run; reflexivity].
  - destruct (decide (c = n)) as [->|?]; same_cell.
    all: heap_run.
    all: eexists; split; [reflexivity|].
    all: split_and!; solve [heap_run; reflexivity].
  - destruct (decide (c = n)) as [->|?]; same_cell.
    all: heap_run.
    all: eexists; split; [reflexivity|].
    all: split_and!; solve [heap_run; reflexivity].
Qed.

(** ** The local clip (C8) *)

Lemma getLocalClip_post h n s t sc :
  h !! n = Some s → h !! transform s = Some t → h !! clipRect s = Some sc →
  ∃ h', getLocalClip n h
          = Some (mat4_mapRect (mat4_loadInverse mat4_new (mTransformRoot t))
                               (mClipRectRoot sc), h') ∧
        (∀ k, clipRect_of h' k = clipRect_of h k) ∧
        (∀ k, transform_of h' k = transform_of h k).
Proof.
  intros Hn Ht Hsc. unfold getLocalClip. heap_run.
  eexists. split; [reflexivity|].
  split; intros k.
  - by rewrite !clipRect_of_alter.
  - by rewrite !transform_of_alter.
Qed.

(** ** The [empty] flag (C10) *)

Lemma preserves_ret {A} P (a : A) : preserves P (ret a).
Proof. intros h a' h' HP [= _ <-]. done. Qed.

Lemma preserves_fail {A} P : preserves P (@fail Heap A).
Proof. intros h a h' _ [=]. Qed.

Lemma preserves_bind {A B} P (m : M Heap A) (k : A → M Heap B) :
  preserves P m → (∀ a, preserves P (k a)) → preserves P (bind m k).
Proof.
  intros Hm Hk h b h' HP. unfold bind.
  destruct (m h) as [[a h1]|] eqn:E; [|done].
  intros Hrun. eapply Hk; [|done]. by eapply Hm.
Qed.

Lemma preserves_deref P p : preserves P (deref p).
Proof. intros h a h' HP. unfold deref. destruct (h !! p); by intros [= _ <-]. Qed.

Lemma preserves_next_address P : preserves P next_address.
Proof. intros h a h' HP [= _ <-]. done. Qed.

Lemma preserves_modify_empty p f :
  (∀ s, empty (f s) = empty s) → preserves empty_clear (modify p f).
Proof.
  intros Hf h a h' HP. unfold modify.
  destruct (h !! p) as [sp|] eqn:Hp; [|done]. intros [= _ <-] k s Hk.
  destruct (h !! k) as [sk|] eqn:Hk'.
  - rewrite (lookup_alter_Some _ _ _ _ _ Hk') in Hk. injection Hk as <-.
    case_decide; [rewrite Hf|]; by eapply HP.
  - by rewrite lookup_alter_None in Hk.
Qed.

Lemma preserves_place s :
  empty s = false → preserves empty_clear (place s).
Proof.
  intros Hs h a h' HP [= _ <-] k sk Hk.
  apply lookup_app_Some in Hk as [Hk|[_ Hk]]; [by eapply HP|].
  apply list_lookup_singleton_Some in Hk as [_ <-]. done.
Qed.

Ltac preserve_step :=
  match goal with
  | |- preserves _ (ret _) => apply preserves_ret
  | |- preserves _ fail => apply preserves_fail
  | |- preserves _ (deref _) => apply preserves_deref
  | |- preserves _ next_address => apply preserves_next_address
  | |- preserves _ (modify _ _) =>
      apply preserves_modify_empty; intros ?; reflexivity
  | |- preserves _ (place _) => apply preserves_place; reflexivity
  | |- preserves _ (bind _ _) => apply preserves_bind; [|intros ?]
  | |- preserves _ (if ?b then _ else _) => destruct b
  | |- preserves _ (match ?x with _ => _ end) => destruct x
  end.

Ltac preserve := repeat preserve_step.

Lemma preserves_onRect {A} p (f : Rect.t → A * Rect.t) :
  preserves empty_clear (onRect p f).
Proof. unfold onRect. preserve. Qed.

Lemma preserves_onRegion (q : option ptr) f : preserves empty_clear (onRegion q f).
Proof. unfold onRegion. preserve. Qed.

Lemma preserves_readRegion (q : option ptr) : preserves empty_clear (readRegion q).
Proof. unfold readRegion. preserve. Qed.

Lemma preserves_copyClipRectFromRegion n :
  preserves empty_clear (copyClipRectFromRegion n).
Proof.
  unfold copyClipRectFromRegion, setRect.
  repeat first [apply preserves_onRect | apply preserves_onRegion
               | apply preserves_readRegion | preserve_step].
Qed.

Lemma preserves_ensureClipRegion n : preserves empty_clear (ensureClipRegion n).
Proof.
  unfold ensureClipRegion, readRect.
  repeat first [apply preserves_onRegion | preserve_step].
Qed.

Lemma preserves_setClip n l t r b : preserves empty_clear (setClip n l t r b).
Proof.
  unfold setClip, setRect.
  repeat first [apply preserves_onRect | apply preserves_onRegion | preserve_step].
Qed.

Lemma preserves_clipTransformed n r op :
  preserves empty_clear (clipTransformed n r op).
Proof.
  unfold clipTransformed, clipRegionOr, clipRegionAnd, clipRegionXor, clipRegionNand.
  repeat first [apply preserves_onRect | apply preserves_onRegion
               | apply preserves_copyClipRectFromRegion
               | apply preserves_ensureClipRegion
               | apply preserves_setClip | preserve_step].
Qed.

Lemma preserves_exec (call : Call) : preserves empty_clear (exec call).
Proof.
  destruct call; cbn [exec].
  - unfold Snapshot_root. preserve.
  - unfold Snapshot_copy, readTransform, readRect.
    repeat first [apply preserves_readRegion | preserve_step].
  - unfold clip, readTransform.
    repeat first [apply preserves_clipTransformed | preserve_step].
  - repeat first [apply preserves_clipTransformed | preserve_step].
  - apply preserves_setClip.
  - unfold getLocalClip, readTransform, readRect. preserve.
  - unfold resetClip.
    repeat first [apply preserves_setClip | preserve_step].
  - unfold resetTransform, onTransform. preserve.
  - unfold isIgnored. preserve.
Qed.

Lemma preserves_run cs : preserves empty_clear (run cs).
Proof.
  induction cs as [|call cs IH]; cbn [run]; [apply preserves_ret|].
  apply preserves_bind; [apply preserves_exec|done].
Qed.

(** C10. Nothing in Snapshot.cpp writes [empty] after construction, and
    both constructors clear it: from a store in which no node has
    [empty] set (the empty store in particular), every sequence of the
    public operations leads to a store in which no node has it set, so
    [isIgnored] answers the node's [invisible] flag. *)
Theorem empty_never_set cs h h' :
  empty_clear h →
  run cs h = Some (tt, h') →
  ∀ k s, h' !! k = Some s →
    empty s = false ∧ isIgnored k h' = Some (invisible s, h').
Proof.
  intros Hh Hrun k s Hk.
  assert (He : empty s = false) by (by eapply (preserves_run cs h tt h')).
  split; [done|]. unfold isIgnored. heap_run. rewrite He.
  by rewrite orb_false_r.
Qed.

(** ** Without region support no node ever holds a region *)

Lemma preserves_modify_no_region p f :
  (∀ s, clipRegion s = None → clipRegion (f s) = None) →
  preserves no_region (modify p f).
Proof.
  intros Hf h a h' HP. unfold modify.
  destruct (h !! p) as [sp|] eqn:Hp; [|done]. intros [= _ <-] k s Hk.
  destruct (h !! k) as [sk|] eqn:Hk'.
  - rewrite (lookup_alter_Some _ _ _ _ _ Hk') in Hk. injection Hk as <-.
    case_decide; [apply Hf|]; by eapply HP.
  - by rewrite lookup_alter_None in Hk.
Qed.

Lemma no_region_snoc h s :
  no_region h → clipRegion s = None → no_region (h ++ [s]).
Proof.
  intros HP Hs k sk Hk.
  apply lookup_app_Some in Hk as [Hk|[_ Hk]]; [by eapply HP|].
  apply list_lookup_singleton_Some in Hk as [_ <-]. done.
Qed.

Ltac gate_step :=
  match goal with
  | |- preserves _ (ret _) => apply preserves_ret
  | |- preserves _ fail => apply preserves_fail
  | |- preserves _ (deref _) => apply preserves_deref
  | |- preserves _ next_address => apply preserves_next_address
  | |- preserves _ (modify _ _) =>
      apply preserves_modify_no_region; intros ? Hs; first [exact Hs | reflexivity]
  | |- preserves _ (bind _ _) => apply preserves_bind; [|intros ?]
  | |- preserves _ (if ?b then _ else _) => destruct b
  | |- preserves _ (match ?x with _ => _ end) => destruct x
  end.

Lemma gate_Snapshot_root height0 : preserves no_region (Snapshot_root height0).
Proof.
  intros h a h' HP. unfold Snapshot_root, next_address, place, bind, ret.
  intros [= _ <-]. by apply no_region_snoc.
Qed.

Lemma gate_Snapshot_copy q saveFlags :
  stencil = false → preserves no_region (Snapshot_copy q saveFlags).
Proof.
  intros Hst h a h' HP.
  unfold Snapshot_copy, next_address, place, readTransform, readRect, bind, ret, deref.
  rewrite Hst. intros Hrun.
  repeat (case_match; simplify_eq; try done).
  all: by apply no_region_snoc.
Qed.

Lemma gate_clipTransformed n r op :
  stencil = false → preserves no_region (clipTransformed n r op).
Proof.
  intros Hst.
  unfold clipTransformed, ensureClipRegion, clipRegionNand, clipRegionXor,
    clipRegionOr, clipRegionAnd, setClip, setRect, onRect.
  rewrite Hst. repeat gate_step.
Qed.

Lemma gate_exec (call : Call) :
  stencil = false → preserves no_region (exec call).
Proof.
  intros Hst. destruct call; cbn [exec].
  - apply preserves_bind; [apply gate_Snapshot_root|intros; apply preserves_ret].
  - apply preserves_bind; [by apply gate_Snapshot_copy|intros; apply preserves_ret].
  - unfold clip, readTransform.
    repeat first [apply gate_clipTransformed; assumption | gate_step].
  - repeat first [apply gate_clipTransformed; assumption | gate_step].
  - unfold setClip, setRect, onRect. rewrite Hst. repeat gate_step.
  - unfold getLocalClip, readTransform, readRect. repeat gate_step.
  - unfold resetClip, setClip, setRect, onRect. rewrite Hst. repeat gate_step.
  - unfold resetTransform, onTransform. repeat gate_step.
  - unfold isIgnored. repeat gate_step.
Qed.

(** With [STENCIL_BUFFER_SIZE] zero, no sequence of public calls gives
    any node a region reference: region mode is never entered. *)
Lemma no_region_without_stencil cs h h' :
  STENCIL_BUFFER_SIZE = 0%Z →
  no_region h → run cs h = Some (tt, h') → no_region h'.
Proof.
  intros Hst%stencil_off. revert h.
  induction cs as [|call cs IH]; intros h HP; cbn [run].
  - by intros [= <-].
  - unfold bind. destruct (exec call h) as [[[] h1]|] eqn:Hrun; [|done].
    apply IH. by eapply gate_exec.
Qed.

(** ** The collapse rule and the region reference (C4) *)

Lemma genuine_of_null h n :
  clipRegion_ptr h n = Some None → region_ref_genuine h n = true.
Proof.
  unfold clipRegion_ptr, region_ref_genuine, clipRegion_of.
  destruct (h !! n) as [s|]; cbn; [|done]. intros [= ->]. done.
Qed.

Lemma genuine_of_collapsed rg old fl p n h' :
  collapsed rg old fl p n h' → region_ref_genuine h' n = true.
Proof.
  unfold collapsed. intros (? & Hreg & ?).
  unfold region_ref_genuine. rewrite Hreg.
  destruct (collapse_discards rg) eqn:Hd; [done|]. by rewrite Hd.
Qed.

Lemma xor_forces_region h n s c sc r :
  stencil = true →
  h !! n = Some s → clipRect s = c → h !! c = Some sc →
  let tmp := ARect_of_Rect r in
  match clipRegion s with
  | None =>
      let seed := Region_set (mClipRegionRoot s) (ARect_of_Rect (mClipRectRoot sc)) in
      ∃ h', clipTransformed n r kXOR_Op h = Some (true, h') ∧
            collapsed (Region_xorSelf seed tmp) (mClipRectRoot sc) (flags s) n n h'
  | Some p =>
      ∀ sp, h !! p = Some sp →
      ∃ h', clipTransformed n r kXOR_Op h = Some (true, h') ∧
            collapsed (Region_xorSelf (mClipRegionRoot sp) tmp)
                      (mClipRectRoot sc) (flags s) p n h'
  end.
Proof.
  intros Hst Hn Hc Hsc tmp.
  assert (Hunf : clipTransformed n r kXOR_Op =
                 with_flag (ensureClipRegion n ;;;
                            region_op (λ rg, Region_xorSelf rg tmp) n) n).
  { unfold clipTransformed. by rewrite clipRegionXor_enabled. }
  rewrite Hunf. destruct (clipRegion s) as [p|] eqn:Hp.
  - intros sp Hsp.
    by apply (forced_region_op_active (λ rg, Region_xorSelf rg tmp) h n s p c sp sc).
  - by apply (forced_region_op_fresh (λ rg, Region_xorSelf rg tmp) h n s c sc).
Qed.

Lemma replace_post h n s c sc r :
  h !! n = Some s → clipRect s = c → h !! c = Some sc →
  (∀ p, clipRegion s = Some p → stencil = true → is_Some (h !! p)) →
  ∃ h', clipTransformed n r kReplace_Op h = Some (true, h') ∧
        clipRect_of h' n = Some r ∧
        clipRegion_ptr h' n = Some (if stencil then None else clipRegion s).
Proof.
  intros Hn Hc Hsc Hvalid.
  destruct (setClip_post h n s c sc (Rect.left r) (Rect.top r) (Rect.right r)
              (Rect.bottom r) Hn Hc Hsc Hvalid) as (h1 & Hrun & Hrect & Hfl & Hreg).
  assert (is_Some (h1 !! n)) as [s1 Hn1].
  { unfold flags_of in Hfl. by destruct (h1 !! n). }
  exists (alter set_clip_flag n h1). split_and!.
  - unfold clipTransformed. cbv beta delta [bind ret modify].
    by rewrite Hrun, Hn1.
  - rewrite clipRect_of_alter by done. rewrite Hrect. by destruct r.
  - unfold clipRegion_ptr in *. by rewrite fmap_lookup_alter.
Qed.

Lemma resetClip_post h n s left top right bottom :
  h !! n = Some s →
  (∀ p, clipRegion s = Some p → stencil = true → is_Some (h !! p)) →
  ∃ h', resetClip n left top right bottom h = Some (tt, h') ∧
        clipRect_of h' n = Some (Rect.mk left top right bottom) ∧
        clipRegion_ptr h' n = Some (if stencil then None else clipRegion s) ∧
        clipRect <$> h' !! n = Some n.
Proof.
  intros Hn Hvalid.
  assert (Hn1 : alter (set_clipRect n) n h !! n = Some (set_clipRect n s)).
  { by rewrite list_lookup_alter_eq, Hn. }
  destruct (setClip_post (alter (set_clipRect n) n h) n (set_clipRect n s) n
              (set_clipRect n s) left top right bottom Hn1 eq_refl Hn1)
    as (h' & Hrun & Hrect & Hfl & Hreg).
  { intros p Hp Hst. destruct (Hvalid p Hp Hst) as [sp Hsp].
    rewrite (lookup_alter_Some _ _ _ _ _ Hsp). eauto. }
  exists h'. split_and!; [|done|done|].
  - unfold resetClip. cbv beta delta [bind modify]. by rewrite Hn.
  - revert Hrun Hrect. unfold setClip, clipRect_of.
    destruct stencil; [destruct (clipRegion s) as [p|] eqn:Hp|].
    + destruct (Hvalid p) as [sp Hsp]; [done..|].
      destruct (decide (p = n)) as [->|?]; same_cell.
      all: heap_run.
      all: intros [= <-] _; heap_run; reflexivity.
    + heap_run. intros [= <-] _; heap_run; reflexivity.
    + heap_run. intros [= <-] _; heap_run; reflexivity.
Qed.

Lemma gate_on s p :
  (stencil = false → clipRegion s = None) → clipRegion s = Some p → stencil = true.
Proof. destruct stencil; [done|]. intros H Hp. rewrite H in Hp; done. Qed.

(** X16. The collapse rule on the node itself.  Collapse re-derives the
    clip rectangle from the region (its bounds, or the empty rectangle
    when the region is empty) and drops the region reference exactly
    when the region is empty or a single rectangle.  Consequently, when
    a clip other than reverse-difference, a set-clip or a reset-clip
    completes on node [n], the region reference of [n] is null or
    points at a region that is neither empty nor a rectangle. *)
Theorem collapse_rule h n s c sc :
  h !! n = Some s → clipRect s = c → h !! c = Some sc →
  (∀ p, clipRegion s = Some p → is_Some (h !! p)) →
  (stencil = false → clipRegion s = None) →
  (∀ p sp, clipRegion s = Some p → h !! p = Some sp →
     let rg := mClipRegionRoot sp in
     ∃ h', copyClipRectFromRegion n h = Some (tt, h') ∧
           clipRect_of h' n = Some (if Region_isEmpty rg
                                    then Rect_setEmpty (mClipRectRoot sc)
                                    else Rect_of_ARect (Region_bounds rg)) ∧
           clipRegion_ptr h' n
             = Some (if Region_isEmpty rg || Region_isRect rg then None else Some p)) ∧
  (∀ r op, op ≠ kReverseDifference_Op →
     ∃ b h', clipTransformed n r op h = Some (b, h') ∧
             region_ref_genuine h' n = true) ∧
  (∀ left top right bottom,
     ∃ h', setClip n left top right bottom h = Some (tt, h') ∧
           region_ref_genuine h' n = true) ∧
  (∀ left top right bottom,
     ∃ h', resetClip n left top right bottom h = Some (tt, h') ∧
           region_ref_genuine h' n = true).
Proof.
  intros Hn Hc Hsc Hvalid Hgate.
  assert (Hvalid' : ∀ p, clipRegion s = Some p → stencil = true → is_Some (h !! p))
    by eauto.
  assert (Hon : ∀ p, clipRegion s = Some p → stencil = true)
    by (intros p; by apply gate_on).
  assert (Hnull : ∀ h', clipRegion_ptr h' n = Some (if stencil then None else clipRegion s)
                        → region_ref_genuine h' n = true).
  { intros h' E. apply genuine_of_null. rewrite E.
    destruct stencil; [done|]. by rewrite Hgate. }
  split_and!.
  - intros p sp Hp Hsp rg.
    destruct (copyClipRectFromRegion_post h n s p c sp sc)
      as (h' & s' & sp' & sc' & Hrun & Hn' & Hp' & Hc' & E1 & E2 & E3 & E4 & E5);
      [by eapply gate_on|done..|].
    exists h'. split; [done|]. unfold clipRect_of, clipRegion_ptr.
    rewrite Hn'. cbn. rewrite E1, Hc', E3. cbn. by rewrite E4.
  - intros r op Hop. destruct op; [| | | | done |].
    + destruct (clipRegion s) as [p|] eqn:Hp.
      * destruct (Hvalid p eq_refl) as [sp Hsp].
        pose proof (difference_forces_region h n s c sc r
                      (Hon p eq_refl) Hn Hc Hsc) as H.
        rewrite Hp in H. destruct (H sp Hsp) as (h' & ? & ?).
        exists true, h'. split; [done|]. by eapply genuine_of_collapsed.
      * destruct stencil eqn:Hst.
        -- pose proof (difference_forces_region h n s c sc r Hst Hn Hc Hsc) as H.
           rewrite Hp in H. destruct H as (h' & ? & ?).
           exists true, h'. split; [done|]. by eapply genuine_of_collapsed.
        -- exists false, h. split.
           ++ unfold clipTransformed, ensureClipRegion, clipRegionNand.
              by rewrite Hst.
           ++ apply genuine_of_null. unfold clipRegion_ptr. rewrite Hn. cbn. by rewrite Hp.
    + destruct (clipRegion s) as [p|] eqn:Hp.
      * destruct (Hvalid p eq_refl) as [sp Hsp].
        destruct (intersect_region_mode h n s p c sp sc r
                    (Hon p eq_refl) Hn Hp Hc Hsp Hsc) as (h' & ? & ?).
        exists true, h'. split; [done|]. by eapply genuine_of_collapsed.
      * destruct (rect_mode_intersect h n s c sc r Hn Hp Hc Hsc)
          as (h' & ? & _ & _ & Hreg & _).
        exists true, h'. split; [done|]. apply genuine_of_null.
        rewrite Hreg. unfold clipRegion_ptr. rewrite Hn. cbn. by rewrite Hp.
    + destruct (clipRegion s) as [p|] eqn:Hp.
      * destruct (Hvalid p eq_refl) as [sp Hsp].
        destruct (union_region_mode h n s p c sp sc r
                    (Hon p eq_refl) Hn Hp Hc Hsp Hsc) as (h' & ? & ?).
        exists true, h'. split; [done|]. by eapply genuine_of_collapsed.
      * destruct (rect_mode_union h n s c sc r Hn Hp Hc Hsc)
          as (h' & ? & _ & _ & Hreg & _).
        eexists _, h'. split; [done|]. apply genuine_of_null.
        rewrite Hreg. unfold clipRegion_ptr. rewrite Hn. cbn. by rewrite Hp.
    + destruct (clipRegion s) as [p|] eqn:Hp.
      * destruct (Hvalid p eq_refl) as [sp Hsp].
        pose proof (xor_forces_region h n s c sc r
                      (Hon p eq_refl) Hn Hc Hsc) as H.
        rewrite Hp in H. destruct (H sp Hsp) as (h' & ? & ?).
        exists true, h'. split; [done|]. by eapply genuine_of_collapsed.
      * destruct stencil eqn:Hst.
        -- pose proof (xor_forces_region h n s c sc r Hst Hn Hc Hsc) as H.
           rewrite Hp in H. destruct H as (h' & ? & ?).
           exists true, h'. split; [done|]. by eapply genuine_of_collapsed.
        -- exists false, h. split.
           ++ unfold clipTransformed, ensureClipRegion, clipRegionXor.
              by rewrite Hst.
           ++ apply genuine_of_null. unfold clipRegion_ptr. rewrite Hn. cbn. by rewrite Hp.
    + destruct (replace_post h n s c sc r Hn Hc Hsc Hvalid') as (h' & ? & _ & Hreg).
      exists true, h'. split; [done|]. by apply Hnull.
  - intros l t r b.
    destruct (setClip_post h n s c sc l t r b Hn Hc Hsc Hvalid')
      as (h' & ? & _ & _ & Hreg).
    exists h'. split; [done|]. by apply Hnull.
  - intros l t r b.
    destruct (resetClip_post h n s l t r b Hn Hvalid') as (h' & ? & _ & Hreg & _).
    exists h'. split; [done|]. by apply Hnull.
Qed.

(** ** Aliasing and the explicit detach (C7) *)

Lemma is_Some_alter (f : Snapshot → Snapshot) p h k :
  is_Some (alter f p h !! k) ↔ is_Some (h !! k).
Proof.
  destruct (h !! k) as [sk|] eqn:Hk.
  - rewrite (lookup_alter_Some _ _ _ _ _ Hk). split; eauto.
  - by rewrite lookup_alter_None.
Qed.

(** Closes the goals left once a call on a private node has been run:
    the node is still private, and no other node has changed. *)
Ltac private_done :=
  eexists _, _; split; [reflexivity|]; split;
  [ eexists; split_and!;
    [ solve [heap_run; reflexivity]
    | solve [heap_run; reflexivity]
    | heap_run; auto
    | heap_run; rewrite ?is_Some_alter; assumption ]
  | intros k Hk; by rewrite ?list_lookup_alter_ne by done ].

Lemma clipTransformed_private h n r op :
  clip_private h n →
  ∃ b h', clipTransformed n r op h = Some (b, h') ∧
          clip_private h' n ∧ only_changes n h h'.
Proof.
  intros (s & Hn & Hc & Hp & Ht).
  unfold clipTransformed, ensureClipRegion, clipRegionNand, clipRegionXor,
    clipRegionOr, clipRegionAnd, copyClipRectFromRegion, setClip, only_changes.
  destruct op, stencil eqn:Hst, Hp as [Hp|Hp].
  all: heap_run.
  all: repeat match goal with
       | |- context [Region_isEmpty ?rg] => destruct (Region_isEmpty rg) eqn:?; heap_run
       | |- context [Region_isRect ?rg] => destruct (Region_isRect rg) eqn:?; heap_run
       | |- context [Rect_intersect ?a ?b] => destruct (Rect_intersect a b) as [[] ?] eqn:?; heap_run
       | |- context [Rect_unionWith ?a ?b] => destruct (Rect_unionWith a b) as [[] ?] eqn:?; heap_run
       end.
  all: private_done.
Qed.

Lemma setClip_private h n left top right bottom :
  clip_private h n →
  ∃ u h', setClip n left top right bottom h = Some (u, h') ∧
          clip_private h' n ∧ only_changes n h h'.
Proof.
  intros (s & Hn & Hc & Hp & Ht). unfold setClip, only_changes.
  destruct stencil eqn:Hst, Hp as [Hp|Hp].
  all: heap_run.
  all: private_done.
Qed.

Lemma resetClip_private h n left top right bottom :
  clip_private h n →
  ∃ u h', resetClip n left top right bottom h = Some (u, h') ∧
          clip_private h' n ∧ only_changes n h h'.
Proof.
  intros (s & Hn & Hc & Hp & Ht). unfold resetClip, setClip, only_changes.
  destruct stencil eqn:Hst, Hp as [Hp|Hp].
  all: heap_run.
  all: private_done.
Qed.

Lemma clip_call_private h n (c : ClipCall) :
  clip_private h n →
  ∃ h', clip_call n c h = Some (tt, h') ∧
        clip_private h' n ∧ only_changes n h h'.
Proof.
  intros Hpriv. destruct c as [l t r b op|r op|l t r b|l t r b]; cbn [clip_call].
  - destruct Hpriv as (s & Hn & Hc & Hp & [tr Ht]).
    destruct (clipTransformed_private h n
                (mat4_mapRect (mTransformRoot tr) (Rect.mk l t r b)) op)
      as (b' & h' & Hrun & ?); [by exists s; eauto|].
    exists h'. split; [|done]. cbv beta delta [bind ret].
    by rewrite (clip_is_clipTransformed h n s tr), Hrun.
  - destruct (clipTransformed_private h n r op Hpriv) as (b' & h' & Hrun & ?).
    exists h'. split; [|done]. cbv beta delta [bind ret]. by rewrite Hrun.
  - destruct (setClip_private h n l t r b Hpriv) as ([] & h' & Hrun & ?). eauto.
  - destruct (resetClip_private h n l t r b Hpriv) as ([] & h' & Hrun & ?). eauto.
Qed.

(** The pointers of a borrowing node [N]: its parent [q], the shared
    rectangle [c] and the shared region [p], in all arrangements. *)
Ltac split_alias q c p :=
  destruct (decide (c = q)) as [->|?];
  try (destruct (decide (p = q)) as [->|?]);
  try (destruct (decide (p = c)) as [->|?]);
  same_cell.

Lemma alias_setClip h N q sN sq c sc left top right bottom :
  h !! N = Some sN → h !! q = Some sq → h !! c = Some sc →
  clipRect sN = c → clipRect sq = c → N ≠ q → N ≠ c →
  (∀ p, clipRegion sN = Some p → p ≠ N ∧ is_Some (h !! p)) →
  ∃ h', setClip N left top right bottom h = Some (tt, h') ∧
        clipRect_of h' q = Some (Rect.mk left top right bottom) ∧
        clipRect_of h' N = Some (Rect.mk left top right bottom).
Proof.
  intros HN Hq Hsc HcN Hcq HNq HNc Hvalid.
  unfold setClip, clipRect_of.
  destruct stencil eqn:Hst; [destruct (clipRegion sN) as [p|] eqn:Hp|].
  - destruct (Hvalid p eq_refl) as [HpN [sp Hsp]].
    split_alias q c p.
    all: heap_run.
    all: eexists; split; [reflexivity|].
    all: split; solve [heap_run; reflexivity].
  - destruct (decide (c = q)) as [->|?]; same_cell.
    all: heap_run.
    all: eexists; split; [reflexivity|].
    all: split; solve [heap_run; reflexivity].
  - destruct (decide (c = q)) as [->|?]; same_cell.
    all: heap_run.
    all: eexists; split; [reflexivity|].
    all: split; solve [heap_run; reflexivity].
Qed.

Lemma alias_resetClip h N q sN sq c sc left top right bottom :
  h !! N = Some sN → h !! q = Some sq → h !! c = Some sc →
  clipRect sq = c → N ≠ q → N ≠ c →
  (∀ p, clipRegion sN = Some p → p ≠ N ∧ is_Some (h !! p)) →
  (stencil = false → clipRegion sN = None) →
  is_Some (h !! transform sN) →
  ∃ h', resetClip N left top right bottom h = Some (tt, h') ∧
        clipRect_of h' q = Some (mClipRectRoot sc) ∧
        clipRect_of h' N = Some (Rect.mk left top right bottom) ∧
        clipRect <$> h' !! q = Some c ∧
        clipRegion <$> h' !! q = Some (clipRegion sq) ∧
        clip_private h' N.
Proof.
  intros HN Hq Hsc Hcq HNq HNc Hvalid Hgate Ht.
  unfold resetClip, setClip, clipRect_of, clip_private.
  destruct stencil eqn:Hst; [destruct (clipRegion sN) as [p|] eqn:Hp|].
  - destruct (Hvalid p eq_refl) as [HpN [sp Hsp]].
    split_alias q c p.
    all: heap_run.
    all: eexists; split; [reflexivity|].
    all: split_and!; [solve [heap_run; reflexivity] .. |].
    all: eexists; split_and!;
      [ solve [heap_run; reflexivity] | solve [heap_run; reflexivity]
      | heap_run; auto | heap_run; rewrite ?is_Some_alter; assumption ].
  - destruct (decide (c = q)) as [->|?]; same_cell.
    all: heap_run.
    all: eexists; split; [reflexivity|].
    all: split_and!; [solve [heap_run; reflexivity] .. |].
    all: eexists; split_and!;
      [ solve [heap_run; reflexivity] | solve [heap_run; reflexivity]
      | heap_run; auto | heap_run; rewrite ?is_Some_alter; assumption ].
  - destruct (decide (c = q)) as [->|?]; same_cell.
    all: heap_run.
    all: eexists; split; [reflexivity|].
    all: split_and!; [solve [heap_run; reflexivity] .. |].
    all: eexists; split_and!;
      [ solve [heap_run; reflexivity] | solve [heap_run; reflexivity]
      | heap_run; auto | heap_run; rewrite ?is_Some_alter; assumption ].
Qed.

Lemma clip_calls_private h n cs :
  clip_private h n →
  ∃ h', clip_calls n cs h = Some (tt, h') ∧
        clip_private h' n ∧ only_changes n h h'.
Proof.
  revert h. induction cs as [|c cs IH]; intros h Hpriv; cbn [clip_calls].
  - exists h. by split_and!.
  - destruct (clip_call_private h n c Hpriv) as (h1 & Hrun1 & Hpriv1 & Hfr1).
    destruct (IH h1 Hpriv1) as (h2 & Hrun2 & Hpriv2 & Hfr2).
    exists h2. split_and!; [|done|].
    + cbv beta delta [bind]. by rewrite Hrun1.
    + intros k Hk. by rewrite Hfr2, Hfr1.
Qed.

Lemma only_changes_clipRect_of n h h' q sq :
  only_changes n h h' → h !! q = Some sq → q ≠ n → clipRect sq ≠ n →
  clipRect_of h' q = clipRect_of h q.
Proof.
  intros Hfr Hq Hqn Hcn. unfold clipRect_of.
  rewrite (Hfr q Hqn), Hq. cbn. by rewrite (Hfr _ Hcn).
Qed.

Lemma only_changes_clipRegion_of n h h' q sq :
  only_changes n h h' → h !! q = Some sq → q ≠ n → clipRegion sq ≠ Some n →
  clipRegion_of h' q = clipRegion_of h q.
Proof.
  intros Hfr Hq Hqn Hpn. unfold clipRegion_of, region_at.
  rewrite (Hfr q Hqn), Hq. cbn. destruct (clipRegion sq) as [p|]; [|done].
  rewrite (Hfr p); [done|congruence].
Qed.

Lemma Snapshot_copy_alias h q sq saveFlags :
  h !! q = Some sq → is_Some (h !! transform sq) →
  has_flag saveFlags kClip_SaveFlag = false →
  ∃ sN, Snapshot_copy q saveFlags h = Some (length h, h ++ [sN]) ∧
        previous sN = Some q ∧
        clipRect sN = clipRect sq ∧
        clipRegion sN = (if stencil then clipRegion sq else None) ∧
        (transform sN = length h ∨ transform sN = transform sq).
Proof.
  intros Hq [st Hst] Hflag.
  unfold Snapshot_copy, next_address, place. rewrite Hflag.
  destruct (has_flag saveFlags kMatrix_SaveFlag); heap_run.
  all: eexists; split; [reflexivity|]; cbn; auto.
Qed.

(** C7 (amended). A node [N] built without the clip save flag borrows
    its parent's clip rectangle.  There is no implicit detach: a
    set-clip on [N] writes through, and the parent reads the new
    rectangle.  reset-clip is the explicit detach: it leaves the
    parent's rectangle as it was and makes [N] own its clip state, after
    which no sequence of clip, set-clip and reset-clip calls on [N]
    changes the parent's rectangle or region, or any other node. *)
Theorem explicit_detach h q sq sc saveFlags :
  h !! q = Some sq → h !! clipRect sq = Some sc →
  is_Some (h !! transform sq) →
  (∀ p, clipRegion sq = Some p → is_Some (h !! p)) →
  has_flag saveFlags kClip_SaveFlag = false →
  let N := length h in
  ∃ h1,
    Snapshot_copy q saveFlags h = Some (N, h1) ∧
    clipRect_of h1 q = Some (mClipRectRoot sc) ∧
    clipRect_of h1 N = Some (mClipRectRoot sc) ∧
    (∀ left top right bottom,
       ∃ h2, setClip N left top right bottom h1 = Some (tt, h2) ∧
             clipRect_of h2 q = Some (Rect.mk left top right bottom)) ∧
    (∀ left top right bottom,
       ∃ h2, resetClip N left top right bottom h1 = Some (tt, h2) ∧
             clipRect_of h2 q = Some (mClipRectRoot sc) ∧
             clipRect_of h2 N = Some (Rect.mk left top right bottom) ∧
             ∀ cs, ∃ h3, clip_calls N cs h2 = Some (tt, h3) ∧
                         clipRect_of h3 q = Some (mClipRectRoot sc) ∧
                         clipRegion_of h3 q = clipRegion_of h2 q ∧
                         only_changes N h2 h3).
Proof.
  intros Hq Hsc Ht Hvalid Hflag N.
  destruct (Snapshot_copy_alias h q sq saveFlags Hq Ht Hflag)
    as (sN & Hrun & _ & HcN & HpN & HtN).
  set (c := clipRect sq) in *.
  assert (HNq : N ≠ q) by (apply lookup_lt_Some in Hq; subst N; lia).
  assert (HNc : N ≠ c) by (apply lookup_lt_Some in Hsc; subst N; lia).
  assert (HN1 : (h ++ [sN]) !! N = Some sN) by (by apply list_lookup_middle).
  assert (Hq1 : (h ++ [sN]) !! q = Some sq) by (by apply lookup_app_l_Some).
  assert (Hsc1 : (h ++ [sN]) !! c = Some sc) by (by apply lookup_app_l_Some).
  assert (Hvalid1 : ∀ p, clipRegion sN = Some p →
                         p ≠ N ∧ is_Some ((h ++ [sN]) !! p)).
  { intros p Hp. rewrite HpN in Hp. destruct stencil; [|done].
    destruct (Hvalid p Hp) as [sp Hsp]. split.
    - apply lookup_lt_Some in Hsp. subst N. lia.
    - exists sp. by apply lookup_app_l_Some. }
  assert (Hgate : stencil = false → clipRegion sN = None).
  { intros Hst. by rewrite HpN, Hst. }
  assert (Ht1 : is_Some ((h ++ [sN]) !! transform sN)).
  { destruct HtN as [->| ->]; [by exists sN|].
    destruct Ht as [st Hst]. exists st. by apply lookup_app_l_Some. }
  exists (h ++ [sN]). split_and!; [done| | | |].
  - unfold clipRect_of. rewrite Hq1. cbn. fold c. by rewrite Hsc1.
  - unfold clipRect_of. rewrite HN1. cbn. rewrite HcN. by rewrite Hsc1.
  - intros l t r b.
    destruct (alias_setClip (h ++ [sN]) N q sN sq c sc l t r b)
      as (h2 & ? & ? & _); eauto.
  - intros l t r b.
    destruct (alias_resetClip (h ++ [sN]) N q sN sq c sc l t r b)
      as (h2 & Hrun2 & Hrq & HrN & Hcq2 & Hpq2 & Hpriv); eauto.
    exists h2. split_and!; [done..|].
    intros cs.
    destruct (clip_calls_private h2 N cs Hpriv) as (h3 & Hrun3 & _ & Hfr).
    destruct (h2 !! q) as [sq2|] eqn:Hq2; [|done].
    cbn in Hcq2, Hpq2. injection Hcq2 as Hcq2. injection Hpq2 as Hpq2.
    exists h3. split_and!; [done| | |done].
    + rewrite <- Hrq. eapply only_changes_clipRect_of; eauto. congruence.
    + eapply only_changes_clipRegion_of; eauto.
      rewrite Hpq2. intros Hp. destruct (Hvalid N Hp) as [sp Hsp].
      apply lookup_lt_Some in Hsp. subst N. lia.
Qed.

(** ** The scenarios of the specification (C2, C3, C8) *)

(** C2. With region support compiled in, a difference clip enters
    region mode if the node has no region (the region is seeded from
    the truncated clip rectangle), subtracts the rectangle from the
    region and collapses.  The rectangle, and the clip rectangle when
    it seeds the region, are ones whose coordinates convert to
    [int32_t].  On the reference geometry, the square
    (0,0,100,100) minus its top half (0,0,100,50) is the rectangle
    (0,50,100,100), and the region reference is null afterward. *)
Theorem difference_clip :
  (∀ h n s c sc r,
     stencil = true →
     h !! n = Some s → clipRect s = c → h !! c = Some sc →
     Rect_fits_int32 r = true →
     match clipRegion s with
     | None =>
         Rect_fits_int32 (mClipRectRoot sc) = true →
         ∃ h', clipTransformed n r kDifference_Op h = Some (true, h') ∧
               collapsed (Region_subtractSelf
                            (Region_set (mClipRegionRoot s)
                                        (ARect_of_Rect (mClipRectRoot sc)))
                            (ARect_of_Rect r))
                         (mClipRectRoot sc) (flags s) n n h'
     | Some p =>
         ∀ sp, h !! p = Some sp →
         ∃ h', clipTransformed n r kDifference_Op h = Some (true, h') ∧
               collapsed (Region_subtractSelf (mClipRegionRoot sp) (ARect_of_Rect r))
                         (mClipRectRoot sc) (flags s) p n h'
     end) ∧
  (∃ w : Scenario.Store, clip (G:=spec_geometry) (C:=spec_config)
              0 0%Q 0%Q 100%Q 50%Q kDifference_Op Scenario.square = Some (true, w) ∧
         clipRect_of w 0 = Some (Scenario.Q4 0 50 100 100) ∧
         clipRegion_ptr w 0 = Some None).
Proof.
  split.
  - intros h n s c sc r Hst Hn Hc Hsc _.
    pose proof (difference_forces_region h n s c sc r Hst Hn Hc Hsc) as Hop.
    destruct (clipRegion s); [exact Hop|intros _; exact Hop].
  - eexists. split; [vm_lhs; reflexivity|]. split; reflexivity.
Qed.

(** C3. Without an active region, an intersect clip intersects the
    clip rectangle with the given one, forces it to empty when the
    intersection is empty, answers true in both cases and creates no
    region on any node.  On the reference geometry, the square
    (0,0,100,100) intersected with (50,-10,150,50) is exactly
    (50,0,100,50), the region reference still null. *)
Theorem intersect_rectangle_mode :
  (∀ h n s c sc r,
     h !! n = Some s → clipRegion s = None → clipRect s = c → h !! c = Some sc →
     ∃ h', clipTransformed n r kIntersect_Op h = Some (true, h') ∧
           clipRect_of h' n
             = Some (if fst (Rect_intersect (mClipRectRoot sc) r)
                     then snd (Rect_intersect (mClipRectRoot sc) r)
                     else Rect_setEmpty (snd (Rect_intersect (mClipRectRoot sc) r))) ∧
           flags_of h' n = Some (Z.lor (flags s) kFlagClipSet) ∧
           (∀ k, clipRegion_ptr h' k = clipRegion_ptr h k) ∧
           (∀ k, region_at h' k = region_at h k)) ∧
  (∃ w : Scenario.Store, clip (G:=spec_geometry) (C:=spec_config)
              0 50%Q (-10)%Q 150%Q 50%Q kIntersect_Op Scenario.square = Some (true, w) ∧
         clipRect_of w 0 = Some (Scenario.Q4 50 0 100 50) ∧
         clipRegion_ptr w 0 = Some None) ∧
  (∃ w : Scenario.Store, clip (G:=spec_geometry) (C:=spec_config)
              0 200%Q 200%Q 300%Q 300%Q kIntersect_Op Scenario.square = Some (true, w) ∧
         clipRect_of w 0 = Some (Scenario.Q4 0 0 0 0) ∧
         clipRegion_ptr w 0 = Some None).
Proof.
  split; [|split].
  - intros h n s c sc r. apply rect_mode_intersect.
  - eexists. split; [vm_lhs; reflexivity|]. split; reflexivity.
  - eexists. split; [vm_lhs; reflexivity|]. split; reflexivity.
Qed.

Lemma resetTransform_post h n s x y z :
  h !! n = Some s →
  ∃ h', resetTransform n x y z h = Some (tt, h') ∧
        transform_of h' n = Some (mat4_loadTranslate (mTransformRoot s) x y z) ∧
        (∀ k, clipRect_of h' k = clipRect_of h k).
Proof.
  intros Hn. unfold resetTransform, transform_of. heap_run.
  eexists. split; [reflexivity|]. split.
  - heap_run. reflexivity.
  - intros k. by rewrite !clipRect_of_alter.
Qed.

(** C8. [getLocalClip] answers the clip rectangle mapped through the
    inverse of the current transform, and changes neither.  After
    [resetTransform] the current transform is the translation.  On the
    reference geometry, a node clipped to (10,10,20,20) whose transform
    is reset to the translation by (5,7,0) has local clip (5,3,15,13). *)
Theorem local_clip :
  (∀ h n s t sc,
     h !! n = Some s → h !! transform s = Some t → h !! clipRect s = Some sc →
     ∃ h', getLocalClip n h
             = Some (mat4_mapRect (mat4_loadInverse mat4_new (mTransformRoot t))
                                  (mClipRectRoot sc), h') ∧
           (∀ k, clipRect_of h' k = clipRect_of h k) ∧
           (∀ k, transform_of h' k = transform_of h k)) ∧
  (∀ h n s x y z,
     h !! n = Some s →
     ∃ h', resetTransform n x y z h = Some (tt, h') ∧
           transform_of h' n = Some (mat4_loadTranslate (mTransformRoot s) x y z) ∧
           (∀ k, clipRect_of h' k = clipRect_of h k)) ∧
  (transform_of Scenario.small_square 0 = Some SpecMatrix.identity ∧
   clipRect_of Scenario.small_square 0 = Some (Scenario.Q4 10 10 20 20) ∧
   ∃ w1 w2 : Scenario.Store,
     resetTransform (G:=spec_geometry) 0 5%Q 7%Q 0%Q Scenario.small_square
       = Some (tt, w1) ∧
     getLocalClip (G:=spec_geometry) 0 w1 = Some (Scenario.Q4 5 3 15 13, w2)).
Proof.
  split; [|split; [|split; [|split]]].
  - intros h n s t sc. apply getLocalClip_post.
  - intros h n s x y z. apply resetTransform_post.
  - reflexivity.
  - reflexivity.
  - eexists _, _. split; [vm_lhs; reflexivity|]. vm_lhs. reflexivity.
Qed.

(** * Further properties *)

(** ** What the operations never touch *)

Lemma keeps_modify k0 (R : Snapshot → Prop) p f :
  (∀ s, R s → R (f s)) → preserves (node_keeps k0 R) (modify p f).
Proof.
  intros Hf h a h' (s0 & Hk & HR). unfold modify.
  destruct (h !! p) as [sp|] eqn:Hp; [|done]. intros [= _ <-].
  exists (if decide (p = k0) then f s0 else s0). split.
  - by apply lookup_alter_Some.
  - case_decide; auto.
Qed.

Lemma keeps_place k0 (R : Snapshot → Prop) s :
  preserves (node_keeps k0 R) (place s).
Proof.
  intros h a h' (s0 & Hk & HR) [= _ <-]. exists s0. split; [|done].
  by apply lookup_app_l_Some.
Qed.

Ltac keeps_step :=
  match goal with
  | |- preserves _ (ret _) => apply preserves_ret
  | |- preserves _ fail => apply preserves_fail
  | |- preserves _ (deref _) => apply preserves_deref
  | |- preserves _ next_address => apply preserves_next_address
  | |- preserves _ (place _) => apply keeps_place
  | |- preserves _ (modify _ _) => apply keeps_modify; solve [auto]
  | |- preserves _ (bind _ _) => apply preserves_bind; [|intros ?]
  | |- preserves _ (if ?b then _ else _) => destruct b
  | |- preserves _ (match ?x with _ => _ end) => destruct x
  end.

Lemma keeps_clipTransformed k0 R n r op :
  clip_writes_keep R → preserves (node_keeps k0 R) (clipTransformed n r op).
Proof.
  intros (H1 & H2 & H3 & H4 & H5 & H6).
  unfold clipTransformed, ensureClipRegion, clipRegionNand, clipRegionXor,
    clipRegionOr, clipRegionAnd, copyClipRectFromRegion, setClip, setRect,
    onRect, onRegion, readRect, readRegion.
  repeat keeps_step.
Qed.

Lemma keeps_setClip k0 R n l t r b :
  clip_writes_keep R → preserves (node_keeps k0 R) (setClip n l t r b).
Proof.
  intros (H1 & H2 & H3 & H4 & H5 & H6).
  unfold setClip, setRect, onRect, onRegion. repeat keeps_step.
Qed.

Lemma keeps_exec k0 R (call : Call) :
  clip_writes_keep R →
  (transform_writes_keep R ∨ resets_transform k0 call = false) →
  preserves (node_keeps k0 R) (exec call).
Proof.
  intros HR HT. pose proof HR as (H1 & H2 & H3 & H4 & H5 & H6).
  destruct call; cbn [exec].
  - unfold Snapshot_root. repeat keeps_step.
  - unfold Snapshot_copy, readTransform, readRect, readRegion. repeat keeps_step.
  - unfold clip, readTransform.
    repeat first [apply keeps_clipTransformed; assumption | keeps_step].
  - repeat first [apply keeps_clipTransformed; assumption | keeps_step].
  - by apply keeps_setClip.
  - unfold getLocalClip, readTransform, readRect. repeat keeps_step.
  - unfold resetClip. repeat first [apply keeps_setClip; assumption | keeps_step].
  - destruct HT as [(H7 & H8)|Hne].
    + unfold resetTransform, onTransform. repeat keeps_step.
    + cbn in Hne. apply bool_decide_eq_false in Hne.
      intros h a h' (s0 & Hk & HR0). unfold resetTransform, onTransform.
      cbv beta delta [bind modify deref].
      destruct (h !! n) as [sn|] eqn:Hn; [|done].
      rewrite list_lookup_alter_eq, Hn. cbn.
      rewrite list_lookup_alter_eq, Hn. cbn.
      intros [= _ <-]. exists s0. split; [|done].
      by rewrite !list_lookup_alter_ne.
  - unfold isIgnored. repeat keeps_step.
Qed.

Lemma keeps_run k0 R cs :
  clip_writes_keep R →
  (transform_writes_keep R ∨ existsb (resets_transform k0) cs = false) →
  preserves (node_keeps k0 R) (run cs).
Proof.
  intros HR. induction cs as [|call cs IH]; intros HT; cbn [run].
  - apply preserves_ret.
  - apply preserves_bind.
    + apply keeps_exec; [done|]. destruct HT as [?|HT]; [by left|right].
      cbn in HT. by apply orb_false_iff in HT as [? _].
    + intros _. apply IH. destruct HT as [?|HT]; [by left|right].
      cbn in HT. by apply orb_false_iff in HT as [_ ?].
Qed.

(** X1. A node is never removed, and the fields that the constructors
    set ([previous], [layer], [fbo], [invisible], [empty], [viewport],
    [height], [alpha], [region]) are never written again: every node of
    the store keeps them through any sequence of public calls. *)
Theorem constructor_fields_frozen cs h h' k s :
  h !! k = Some s →
  run cs h = Some (tt, h') →
  ∃ s', h' !! k = Some s' ∧ frozen s' = frozen s.
Proof.
  intros Hk Hrun.
  apply (keeps_run k (λ s', frozen s' = frozen s) cs) with (h := h) (a := tt);
    [| |by exists s|done].
  - by split_and!.
  - left. by split.
Qed.

(** X2. No operation clears a flag: a bit that is set in a node's
    [flags] stays set through any sequence of public calls (the clip
    flag in particular, once set, is never taken back). *)
Theorem flags_never_cleared cs h h' k s b :
  h !! k = Some s → Z.testbit (flags s) b = true →
  run cs h = Some (tt, h') →
  ∃ s', h' !! k = Some s' ∧ Z.testbit (flags s') b = true.
Proof.
  intros Hk Hb Hrun.
  apply (keeps_run k (λ s', Z.testbit (flags s') b = true) cs)
    with (h := h) (a := tt); [| |by exists s|done].
  - split_and!; try done. intros s0 Hs0. cbn. by rewrite Z.lor_spec, Hs0.
  - left. by split.
Qed.

(** X3. Transforms are never written through a borrowed pointer: a
    node's own matrix and its transform pointer change only when
    [resetTransform] is called on that very node, so both are what they
    were after any sequence of public calls without a reset on the
    node, whatever is done to other nodes.  If in addition the node it
    borrows its matrix from is not reset either, the transform the node
    reads stays what it was. *)
Theorem transform_changes_only_by_reset cs h h' k s :
  h !! k = Some s →
  existsb (resets_transform k) cs = false →
  run cs h = Some (tt, h') →
  (∃ s', h' !! k = Some s' ∧ transform s' = transform s ∧
         mTransformRoot s' = mTransformRoot s) ∧
  (∀ t, h !! transform s = Some t →
        existsb (resets_transform (transform s)) cs = false →
        transform_of h' k = transform_of h k).
Proof.
  intros Hk Hnk Hrun.
  assert (Hkeep : ∀ k0 s0, h !! k0 = Some s0 →
            existsb (resets_transform k0) cs = false →
            ∃ s', h' !! k0 = Some s' ∧ transform s' = transform s0 ∧
                  mTransformRoot s' = mTransformRoot s0).
  { intros k0 s0 Hk0 Hn0.
    apply (keeps_run k0 (λ s', transform s' = transform s0 ∧
                               mTransformRoot s' = mTransformRoot s0) cs)
      with (h := h) (a := tt); [| |by exists s0|done].
    - by split_and!.
    - by right. }
  destruct (Hkeep k s Hk Hnk) as (s' & Hk' & Hptr & Hroot).
  split; [by exists s'|].
  intros t Ht Hnt.
  unfold transform_of. rewrite Hk, Hk'. cbn. rewrite Hptr.
  destruct (Hkeep _ t Ht Hnt) as (t' & Ht' & _ & Hroot').
  rewrite Ht, Ht'. cbn. by rewrite Hroot'.
Qed.

(** ** The copying constructor *)

Lemma Snapshot_copy_post h q sq st sc saveFlags :
  h !! q = Some sq → h !! transform sq = Some st → h !! clipRect sq = Some sc →
  (∀ p, clipRegion sq = Some p → is_Some (h !! p)) →
  ∃ sN,
    Snapshot_copy q saveFlags h = Some (length h, h ++ [sN]) ∧
    frozen sN = (Some q, None, fbo sq, invisible sq, false, viewport sq,
                 height sq, alpha sq,
                 if has_flag (flags sq) kFlagFboTarget then region sq else None) ∧
    flags sN = (if has_flag (flags sq) kFlagFboTarget
                then Z.lor 0 kFlagFboTarget else 0%Z) ∧
    (if has_flag saveFlags kMatrix_SaveFlag
     then transform sN = length h ∧
          mTransformRoot sN = mat4_load mat4_new (mTransformRoot st)
     else transform sN = transform sq ∧ mTransformRoot sN = mat4_new) ∧
    (if has_flag saveFlags kClip_SaveFlag
     then clipRect sN = length h ∧ mClipRectRoot sN = mClipRectRoot sc ∧
          match clipRegion sq with
          | Some p =>
              if stencil
              then clipRegion sN = Some (length h) ∧
                   Some (mClipRegionRoot sN)
                     = Region_merge Region_new <$> region_at h p
              else clipRegion sN = None
          | None => clipRegion sN = None
          end
     else clipRect sN = clipRect sq ∧
          clipRegion sN = (if stencil then clipRegion sq else None)).
Proof.
  intros Hq Ht Hc Hvalid.
  unfold Snapshot_copy, next_address, place, readTransform, readRect, readRegion,
    region_at.
  heap_run.
  destruct (has_flag saveFlags kMatrix_SaveFlag),
           (has_flag saveFlags kClip_SaveFlag),
           (has_flag (flags sq) kFlagFboTarget), stencil eqn:Hst,
           (clipRegion sq) as [p|] eqn:Hp.
  all: try (destruct (Hvalid p eq_refl) as [sp Hsp]).
  all: heap_run.
  all: eexists; split; [reflexivity|]; cbn; rewrite ?Hp; split_and!; try done.
  all: by rewrite Hsp.
Qed.

(** ** No call faults on a well-formed store *)

Lemma wf_node h n s :
  well_formed h → h !! n = Some s →
  is_Some (h !! transform s) ∧ is_Some (h !! clipRect s) ∧
  (∀ p, clipRegion s = Some p → is_Some (h !! p)).
Proof.
  intros Hwf Hn. destruct (Hwf n s Hn) as (Ht & Hc & Hp & _).
  apply lookup_lt_Some in Hn.
  split_and!; [| |intros p Hp'; specialize (Hp p Hp')];
    apply lookup_lt_is_Some; lia.
Qed.

Lemma set_clip_flag_twice s : set_clip_flag (set_clip_flag s) = set_clip_flag s.
Proof.
  unfold set_clip_flag, set_flags. cbn.
  by rewrite <- Z.lor_assoc, Z.lor_diag.
Qed.

(** Every clip operation runs to completion once the node and the
    storage it points at exist, and it sets the clip flag exactly when
    it answers true. *)
Lemma clipTransformed_total h n s c sc r op :
  h !! n = Some s → clipRect s = c → h !! c = Some sc →
  (∀ p, clipRegion s = Some p → is_Some (h !! p)) →
  ∃ b h', clipTransformed n r op h = Some (b, h') ∧
          flags_of h' n = Some (if b then Z.lor (flags s) kFlagClipSet else flags s).
Proof.
  intros Hn Hc Hsc Hvalid.
  assert (Hfl : flags_of h n = Some (flags s)) by (unfold flags_of; by rewrite Hn).
  assert (Hvalid' : ∀ p, clipRegion s = Some p → stencil = true → is_Some (h !! p))
    by eauto.
  destruct op.
  - destruct stencil eqn:Hst.
    + pose proof (difference_forces_region h n s c sc r Hst Hn Hc Hsc) as H.
      destruct (clipRegion s) as [p|] eqn:Hp.
      * destruct (Hvalid p eq_refl) as [sp Hsp].
        destruct (H sp Hsp) as (h' & ? & _ & _ & _ & ?). by exists true, h'.
      * destruct H as (h' & ? & _ & _ & _ & ?). by exists true, h'.
    + exists false, h. split; [|done].
      unfold clipTransformed, ensureClipRegion, clipRegionNand. by rewrite Hst.
  - destruct (clipRegion s) as [p|] eqn:Hp.
    + destruct stencil eqn:Hst.
      * destruct (Hvalid p eq_refl) as [sp Hsp].
        destruct (intersect_region_mode h n s p c sp sc r Hst Hn Hp Hc Hsp Hsc)
          as (h' & ? & _ & _ & _ & ?). by exists true, h'.
      * exists false, h. split; [|done].
        unfold clipTransformed, clipRegionOr. rewrite Hst. heap_run. done.
    + destruct (rect_mode_intersect h n s c sc r Hn Hp Hc Hsc) as (h' & ? & _ & ? & _).
      by exists true, h'.
  - destruct (clipRegion s) as [p|] eqn:Hp.
    + destruct stencil eqn:Hst.
      * destruct (Hvalid p eq_refl) as [sp Hsp].
        destruct (union_region_mode h n s p c sp sc r Hst Hn Hp Hc Hsp Hsc)
          as (h' & ? & _ & _ & _ & ?). by exists true, h'.
      * exists false, h. split; [|done].
        unfold clipTransformed, clipRegionAnd. rewrite Hst. heap_run. done.
    + destruct (rect_mode_union h n s c sc r Hn Hp Hc Hsc) as (h' & ? & _ & ? & _).
      by eexists _, h'.
  - destruct stencil eqn:Hst.
    + pose proof (xor_forces_region h n s c sc r Hst Hn Hc Hsc) as H.
      destruct (clipRegion s) as [p|] eqn:Hp.
      * destruct (Hvalid p eq_refl) as [sp Hsp].
        destruct (H sp Hsp) as (h' & ? & _ & _ & _ & ?). by exists true, h'.
      * destruct H as (h' & ? & _ & _ & _ & ?). by exists true, h'.
    + exists false, h. split; [|done].
      unfold clipTransformed, ensureClipRegion, clipRegionXor. by rewrite Hst.
  - by exists false, h.
  - destruct (setClip_post h n s c sc (Rect.left r) (Rect.top r) (Rect.right r)
                (Rect.bottom r) Hn Hc Hsc Hvalid') as (h1 & Hrun & _ & Hfl1 & _).
    unfold flags_of in Hfl1.
    destruct (h1 !! n) as [s1|] eqn:Hn1; [|done]. cbn in Hfl1.
    exists true, (alter set_clip_flag n h1). split.
    + unfold clipTransformed. cbv beta delta [bind ret modify].
      by rewrite Hrun, Hn1.
    + unfold flags_of. rewrite list_lookup_alter_eq, Hn1. cbn.
      injection Hfl1 as ->. by rewrite <- Z.lor_assoc, Z.lor_diag.
Qed.

Lemma wf_modify p f :
  (∀ s, node_ok p s → node_ok p (f s)) → preserves well_formed (modify p f).
Proof.
  intros Hf h a h' Hwf. unfold modify.
  destruct (h !! p) as [sp|] eqn:Hp; [|done]. intros [= _ <-] k s Hk.
  destruct (h !! k) as [sk|] eqn:Hk'.
  - rewrite (lookup_alter_Some _ _ _ _ _ Hk') in Hk. injection Hk as <-.
    case_decide; [subst k; apply Hf|]; by apply Hwf.
  - by rewrite lookup_alter_None in Hk.
Qed.

Lemma length_modify L p f : preserves (λ h, length h = L) (modify p f).
Proof.
  intros h a h' HL. unfold modify.
  destruct (h !! p); [|done]. intros [= _ <-]. by rewrite length_alter.
Qed.

Ltac wf_side :=
  let s0 := fresh "s" in
  intros s0 (? & ? & ? & ?); unfold node_ok; cbn; split_and!;
  first [done | lia | intros ? [= <-]; lia].

(** One step through a computation that allocates nothing; [on_modify]
    deals with the assignments. *)
Ltac inv_step on_modify :=
  match goal with
  | |- preserves _ (ret _) => apply preserves_ret
  | |- preserves _ fail => apply preserves_fail
  | |- preserves _ (deref _) => apply preserves_deref
  | |- preserves _ (modify _ _) => on_modify
  | |- preserves _ (bind _ _) => apply preserves_bind; [|intros ?]
  | |- preserves _ (if ?b then _ else _) => destruct b
  | |- preserves _ (match ?x with _ => _ end) => destruct x
  end.

Ltac unfold_calls :=
  unfold clip, clipTransformed, ensureClipRegion, clipRegionNand, clipRegionXor,
    clipRegionOr, clipRegionAnd, copyClipRectFromRegion, getLocalClip,
    resetClip, setClip, resetTransform, isIgnored, setRect, onRect, onRegion,
    onTransform, readRect, readRegion, readTransform.

Lemma wf_exec (call : Call) :
  call_adds call = 0 → preserves well_formed (exec call).
Proof.
  destruct call; cbn [exec call_adds]; try done; intros _.
  all: unfold_calls.
  all: repeat inv_step ltac:(apply wf_modify; solve [wf_side]).
Qed.

Lemma length_exec L (call : Call) :
  call_adds call = 0 → preserves (λ h, length h = L) (exec call).
Proof.
  destruct call; cbn [exec call_adds]; try done; intros _.
  all: unfold_calls.
  all: repeat inv_step ltac:(apply length_modify).
Qed.

Lemma wf_snoc h s :
  well_formed h → node_ok (length h) s → well_formed (h ++ [s]).
Proof.
  intros Hwf Hs k sk Hk.
  apply lookup_app_Some in Hk as [Hk|[Hge Hk]]; [by apply Hwf|].
  apply list_lookup_singleton_Some in Hk as [Hk <-].
  by replace k with (length h) by lia.
Qed.

Lemma exec_safe h (call : Call) :
  well_formed h →
  (∀ n, call_target call = Some n → n < length h) →
  ∃ h', exec call h = Some (tt, h') ∧ well_formed h' ∧
        length h' = length h + call_adds call.
Proof.
  intros Hwf Htarget.
  assert (Hstay : call_adds call = 0 →
            (∃ h', exec call h = Some (tt, h')) →
            ∃ h', exec call h = Some (tt, h') ∧ well_formed h' ∧
                  length h' = length h + call_adds call).
  { intros H0 [h' Hrun]. exists h'. split_and!; [done| |].
    - by eapply (wf_exec call H0 h tt h').
    - rewrite H0, Nat.add_0_r. by eapply (length_exec (length h) call H0 h tt h'). }
  assert (Hnode : ∀ n, call_target call = Some n →
            ∃ s st sc, h !! n = Some s ∧ h !! transform s = Some st ∧
                       h !! clipRect s = Some sc ∧
                       (∀ p, clipRegion s = Some p → is_Some (h !! p))).
  { intros n Hn. destruct (lookup_lt_is_Some_2 h n (Htarget n Hn)) as [s Hs].
    destruct (wf_node h n s Hwf Hs) as ([st Hst] & [sc Hsc] & Hp). eauto 10. }
  destruct call as [height0|q saveFlags|n l t r b op|n r op|n l t r b|n
                   |n l t r b|n x y z|n]; cbn [exec call_target call_adds] in *.
  - exists (h ++ [mkSnapshot 0%Z None None 0%Z false false Rect_new height0 1%Q
                    (length h) (length h) None None mat4_new Rect_new Region_new
                    Rect_new]).
    split_and!; [done| |by rewrite length_app; cbn].
    apply wf_snoc; [done|]. unfold node_ok. cbn.
    split_and!; [done|done|by intros ? [=]|by intros ? [=]].
  - destruct (Hnode q eq_refl) as (sq & st & sc & Hq & Ht & Hc & Hp).
    destruct (Snapshot_copy_post h q sq st sc saveFlags Hq Ht Hc Hp)
      as (sN & Hrun & Hfrozen & _ & Htr & Hcl).
    exists (h ++ [sN]). split_and!.
    + cbv beta delta [bind ret]. by rewrite Hrun.
    + apply wf_snoc; [done|].
      destruct (Hwf q sq Hq) as (Htq & Hcq & Hpq & _).
      apply lookup_lt_Some in Hq.
      unfold frozen in Hfrozen. injection Hfrozen as Hprev _ _ _ _ _ _ _ _.
      unfold node_ok. split_and!.
      * destruct (has_flag saveFlags kMatrix_SaveFlag); destruct Htr; lia.
      * destruct (has_flag saveFlags kClip_SaveFlag); [destruct Hcl|destruct Hcl]; lia.
      * intros p HpN.
        destruct (has_flag saveFlags kClip_SaveFlag).
        -- destruct Hcl as (_ & _ & Hreg).
           destruct (clipRegion sq), stencil; [destruct Hreg as [Hreg _]| | |];
             rewrite Hreg in HpN; simplify_eq; lia.
        -- destruct Hcl as (_ & Hreg). rewrite Hreg in HpN.
           destruct stencil; [|done]. specialize (Hpq p HpN). lia.
      * intros q' Hq'. rewrite Hprev in Hq'. simplify_eq. lia.
    + by rewrite length_app; cbn.
  - apply Hstay; [done|].
    destruct (Hnode n eq_refl) as (s & st & sc & Hn & Ht & Hc & Hp).
    destruct (clipTransformed_total h n s (clipRect s) sc
                (mat4_mapRect (mTransformRoot st) (Rect.mk l t r b)) op
                Hn eq_refl Hc Hp) as (b' & h' & Hrun & _).
    exists h'. cbv beta delta [bind ret].
    by rewrite (clip_is_clipTransformed h n s st), Hrun.
  - apply Hstay; [done|].
    destruct (Hnode n eq_refl) as (s & st & sc & Hn & Ht & Hc & Hp).
    destruct (clipTransformed_total h n s (clipRect s) sc r op Hn eq_refl Hc Hp)
      as (b' & h' & Hrun & _).
    exists h'. cbv beta delta [bind ret]. by rewrite Hrun.
  - apply Hstay; [done|].
    destruct (Hnode n eq_refl) as (s & st & sc & Hn & Ht & Hc & Hp).
    destruct (setClip_post h n s (clipRect s) sc l t r b Hn eq_refl Hc)
      as (h' & Hrun & _); eauto.
  - apply Hstay; [done|].
    destruct (Hnode n eq_refl) as (s & st & sc & Hn & Ht & Hc & Hp).
    destruct (getLocalClip_post h n s st sc Hn Ht Hc) as (h' & Hrun & _).
    exists h'. cbv beta delta [bind ret]. by rewrite Hrun.
  - apply Hstay; [done|].
    destruct (Hnode n eq_refl) as (s & st & sc & Hn & Ht & Hc & Hp).
    destruct (resetClip_post h n s l t r b Hn) as (h' & Hrun & _); eauto.
  - apply Hstay; [done|].
    destruct (Hnode n eq_refl) as (s & st & sc & Hn & Ht & Hc & Hp).
    destruct (resetTransform_post h n s x y z Hn) as (h' & Hrun & _). eauto.
  - apply Hstay; [done|].
    destruct (Hnode n eq_refl) as (s & st & sc & Hn & Ht & Hc & Hp).
    exists h. unfold isIgnored. heap_run. done.
Qed.

(** X4. Memory safety.  In a well-formed store (every node points only
    at its own roots or at roots of older nodes, and its parent is
    older) no public call dereferences a null or dangling pointer: any
    sequence of calls on existing nodes runs to completion, leaves the
    store well-formed, and adds exactly one node per constructor call.
    The empty store is well-formed. *)
Theorem public_calls_never_fault cs h :
  well_formed h →
  calls_valid (length h) cs = true →
  ∃ h', run cs h = Some (tt, h') ∧ well_formed h' ∧
        length h' = length h + sum_list (call_adds <$> cs).
Proof.
  revert h. induction cs as [|call cs IH]; intros h Hwf Hvalid; cbn [run].
  - exists h. split_and!; [done|done|]. cbn. lia.
  - cbn in Hvalid. apply andb_true_iff in Hvalid as [Ht Hrest].
    destruct (exec_safe h call Hwf) as (h1 & Hrun1 & Hwf1 & Hlen1).
    { intros n Hn. rewrite Hn in Ht. by apply Nat.ltb_lt. }
    rewrite <- Hlen1 in Hrest.
    destruct (IH h1 Hwf1 Hrest) as (h2 & Hrun2 & Hwf2 & Hlen2).
    exists h2. split_and!; [|done|].
    + cbv beta delta [bind]. by rewrite Hrun1.
    + rewrite Hlen2, Hlen1. cbn. lia.
Qed.

(** ** The clip flag *)

(** X5. A clip call sets the clip flag exactly when it reports a change:
    on a node whose storage exists, [clipTransformed] runs to
    completion with some answer [b], and afterwards the node's flags are
    the old flags with [kFlagClipSet] or-ed in if [b] is true, and the
    old flags if [b] is false.  The same holds through [clip]. *)
Theorem clip_flag_follows_result h n s st sc r left top right bottom op :
  h !! n = Some s → h !! transform s = Some st → h !! clipRect s = Some sc →
  (∀ p, clipRegion s = Some p → is_Some (h !! p)) →
  (∃ b h', clipTransformed n r op h = Some (b, h') ∧
           flags_of h' n = Some (if b then Z.lor (flags s) kFlagClipSet else flags s)) ∧
  (∃ b h', clip n left top right bottom op h = Some (b, h') ∧
           flags_of h' n = Some (if b then Z.lor (flags s) kFlagClipSet else flags s)).
Proof.
  intros Hn Ht Hc Hp. split.
  - by apply (clipTransformed_total h n s (clipRect s) sc).
  - rewrite (clip_is_clipTransformed h n s st) by done.
    by apply (clipTransformed_total h n s (clipRect s) sc).
Qed.

(** ** The remaining set operations *)

(** X6. With region support compiled in, an xor clip enters region mode
    if the node has no region (seeding the region from the truncated
    clip rectangle), XORs the rectangle into the region and collapses;
    it answers true and sets the clip flag.  The rectangle, and the
    clip rectangle when it seeds the region, are ones whose coordinates
    convert to [int32_t]. *)
Theorem xor_clip h n s c sc r :
  stencil = true →
  h !! n = Some s → clipRect s = c → h !! c = Some sc →
  Rect_fits_int32 r = true →
  match clipRegion s with
  | None =>
      Rect_fits_int32 (mClipRectRoot sc) = true →
      ∃ h', clipTransformed n r kXOR_Op h = Some (true, h') ∧
            collapsed (Region_xorSelf
                         (Region_set (mClipRegionRoot s)
                                     (ARect_of_Rect (mClipRectRoot sc)))
                         (ARect_of_Rect r))
                      (mClipRectRoot sc) (flags s) n n h'
  | Some p =>
      ∀ sp, h !! p = Some sp →
      ∃ h', clipTransformed n r kXOR_Op h = Some (true, h') ∧
            collapsed (Region_xorSelf (mClipRegionRoot sp) (ARect_of_Rect r))
                      (mClipRectRoot sc) (flags s) p n h'
  end.
Proof.
  intros Hst Hn Hc Hsc _.
  pose proof (xor_forces_region h n s c sc r Hst Hn Hc Hsc) as Hop.
  destruct (clipRegion s); [exact Hop|intros _; exact Hop].
Qed.

(** X7. Without an active region, a union clip hands the rectangle to
    [unionWith]: the call answers what [unionWith] answers, the clip
    rectangle becomes what [unionWith] leaves, the clip flag is set only
    if the answer is true, and no node gains or loses a region. *)
Theorem union_rectangle_mode h n s c sc r :
  h !! n = Some s → clipRegion s = None → clipRect s = c → h !! c = Some sc →
  ∃ h', clipTransformed n r kUnion_Op h
          = Some (fst (Rect_unionWith (mClipRectRoot sc) r), h') ∧
        clipRect_of h' n = Some (snd (Rect_unionWith (mClipRectRoot sc) r)) ∧
        flags_of h' n
          = Some (if fst (Rect_unionWith (mClipRectRoot sc) r)
                  then Z.lor (flags s) kFlagClipSet else flags s) ∧
        (∀ k, clipRegion_ptr h' k = clipRegion_ptr h k) ∧
        (∀ k, region_at h' k = region_at h k).
Proof. apply rect_mode_union. Qed.

Lemma alter_fixed (f : Snapshot → Snapshot) n h :
  (∀ s, h !! n = Some s → f s = s) → alter f n h = h.
Proof.
  intros Hf. rewrite <- (list_alter_id id h n) at 2 by done.
  by apply list_alter_ext.
Qed.

Lemma setClip_ends_with_flag h n l t r b h1 :
  setClip n l t r b h = Some (tt, h1) →
  alter set_clip_flag n h1 = h1 ∧ is_Some (h1 !! n).
Proof.
  cbv beta delta [setClip bind]. intros Hrun.
  repeat match type of Hrun with
         | match ?x with _ => _ end = _ =>
             destruct x as [[? ?]|] eqn:?; [|done]
         end.
  match type of Hrun with
  | modify _ _ ?h0 = _ =>
      unfold modify in Hrun; destruct (h0 !! n) as [s0|] eqn:Hn0; [|done]
  end.
  injection Hrun as <-. split.
  - rewrite list_alter_alter_eq. apply list_alter_ext; [|done].
    intros x _. apply set_clip_flag_twice.
  - rewrite list_lookup_alter_eq, Hn0. by eexists.
Qed.

(** X8. A replace clip is exactly a set-clip: it fails when [setClip]
    fails and otherwise answers true and leaves the very store that
    [setClip] leaves (setting the clip flag a second time changes
    nothing). *)
Theorem replace_is_setClip h n r :
  clipTransformed n r kReplace_Op h
  = match setClip n (Rect.left r) (Rect.top r) (Rect.right r) (Rect.bottom r) h with
    | Some (_, h') => Some (true, h')
    | None => None
    end.
Proof.
  unfold clipTransformed. cbv beta delta [bind ret].
  destruct (setClip n _ _ _ _ h) as [[[] h1]|] eqn:Hrun; [|done].
  destruct (setClip_ends_with_flag _ _ _ _ _ _ _ Hrun) as [Hfix [s1 Hn1]].
  unfold modify. by rewrite Hn1, Hfix.
Qed.

(** ** Region mode is entered only by difference and xor *)

Lemma rectangle_Snapshot_copy q saveFlags :
  preserves no_region (Snapshot_copy q saveFlags).
Proof.
  intros h a h' HP.
  unfold Snapshot_copy, next_address, place, readTransform, readRect, readRegion,
    bind, ret, deref.
  destruct (h !! q) as [ps|] eqn:Hq; [|done].
  pose proof (HP q ps Hq) as Hnone. rewrite Hnone. intros Hrun.
  repeat (case_match; simplify_eq; try done).
  all: by apply no_region_snoc.
Qed.

Lemma rectangle_clipTransformed n r op :
  match op with kDifference_Op | kXOR_Op => False | _ => True end →
  preserves no_region (clipTransformed n r op).
Proof.
  intros Hop.
  unfold clipTransformed, clipRegionOr, clipRegionAnd, copyClipRectFromRegion,
    setClip, setRect, onRect, onRegion, readRegion.
  destruct op; try done; repeat gate_step.
Qed.

Lemma rectangle_exec (call : Call) :
  enters_region_mode call = false → preserves no_region (exec call).
Proof.
  intros Hcall. destruct call; cbn [exec].
  - apply preserves_bind; [apply gate_Snapshot_root|intros; apply preserves_ret].
  - apply preserves_bind; [apply rectangle_Snapshot_copy|intros; apply preserves_ret].
  - unfold clip, readTransform.
    repeat first [apply rectangle_clipTransformed; by destruct op | gate_step].
  - repeat first [apply rectangle_clipTransformed; by destruct op | gate_step].
  - unfold setClip, setRect, onRect, onRegion. repeat gate_step.
  - unfold getLocalClip, readTransform, readRect. repeat gate_step.
  - unfold resetClip, setClip, setRect, onRect, onRegion. repeat gate_step.
  - unfold resetTransform, onTransform. repeat gate_step.
  - unfold isIgnored. repeat gate_step.
Qed.

(** X9. Region mode is entered only by a difference or an xor clip: if
    no node of the store holds a region reference, then after any
    sequence of public calls without a difference or xor clip
    (constructors, intersect, union, replace and reverse-difference
    clips, set-clip, reset-clip, transforms and queries) still no node
    holds one, whatever the geometry and whether or not region support
    is compiled in. *)
Theorem region_mode_only_by_difference_or_xor cs h h' :
  no_region h →
  existsb enters_region_mode cs = false →
  run cs h = Some (tt, h') →
  no_region h'.
Proof.
  revert h. induction cs as [|call cs IH]; intros h HP Hcs; cbn [run].
  - by intros [= <-].
  - cbn in Hcs. apply orb_false_iff in Hcs as [Hcall Hcs].
    unfold bind. destruct (exec call h) as [[[] h1]|] eqn:Hrun; [|done].
    apply IH; [|done]. by eapply rectangle_exec.
Qed.

(** ** The local-clip query as a cache *)

(** Symbolic execution that also resolves the transform pointer. *)
Ltac heap_run_t :=
  cbv beta delta [bind ret fail deref modify onRect setRect onRegion
                  onTransform readRect readRegion readTransform];
  repeat first
    [ heap_step
    | match goal with
      | H : transform ?s = _ |- context [transform ?s] => rewrite H
      end ].

(** X10. [getLocalClip] only fills the node's scratch rectangle: the
    store it leaves is the old store with [mLocalClip] of the node set
    to the answer, and asking again gives the same answer and leaves
    the store as it is. *)
Theorem getLocalClip_repeatable h n s t c st sc :
  h !! n = Some s → transform s = t → clipRect s = c →
  h !! t = Some st → h !! c = Some sc →
  ∃ r h', getLocalClip n h = Some (r, h') ∧
          h' = alter (set_mLocalClip r) n h ∧
          getLocalClip n h' = Some (r, h').
Proof.
  intros Hn Ht Hc Hst Hsc.
  set (r := mat4_mapRect (mat4_loadInverse mat4_new (mTransformRoot st))
                         (mClipRectRoot sc)).
  assert (Hfirst : getLocalClip n h = Some (r, alter (set_mLocalClip r) n h)).
  { unfold getLocalClip. heap_run_t. by rewrite list_alter_alter_eq. }
  exists r, (alter (set_mLocalClip r) n h). split_and!; [done|done|].
  unfold getLocalClip.
  destruct (decide (t = n)) as [->|?]; (destruct (decide (c = n)) as [->|?]);
    same_cell.
  all: heap_run_t.
  all: by rewrite !list_alter_alter_eq.
Qed.

(** ** Transforms: copy, share and reset *)

Lemma resetTransform_frame h n s x y z :
  h !! n = Some s →
  ∃ h', resetTransform n x y z h = Some (tt, h') ∧
        only_changes n h h' ∧
        h' !! n = Some (set_mTransformRoot
                          (mat4_loadTranslate (mTransformRoot s) x y z)
                          (set_transform n s)).
Proof.
  intros Hn. unfold resetTransform, only_changes. heap_run.
  eexists. split; [reflexivity|]. split.
  - intros k Hk. by rewrite !list_lookup_alter_ne.
  - heap_run. reflexivity.
Qed.

Lemma only_changes_transform_of n h h' q sq :
  only_changes n h h' → h !! q = Some sq → q ≠ n → transform sq ≠ n →
  transform_of h' q = transform_of h q.
Proof.
  intros Hfr Hq Hqn Htn. unfold transform_of.
  rewrite (Hfr q Hqn), Hq. cbn. by rewrite (Hfr _ Htn).
Qed.

(** X11. A child's transform.  Built with the matrix save flag, the
    child reads a copy of the parent's matrix loaded into its own root;
    built without it, the child reads the parent's matrix itself.  In
    both cases [resetTransform] on the child makes the translation the
    child's transform, changes no other node, and leaves the transform
    the parent reads untouched. *)
Theorem child_transform h q sq st sc saveFlags x y z :
  h !! q = Some sq → h !! transform sq = Some st → h !! clipRect sq = Some sc →
  (∀ p, clipRegion sq = Some p → is_Some (h !! p)) →
  let N := length h in
  ∃ h1,
    Snapshot_copy q saveFlags h = Some (N, h1) ∧
    transform_of h1 q = Some (mTransformRoot st) ∧
    transform_of h1 N
      = Some (if has_flag saveFlags kMatrix_SaveFlag
              then mat4_load mat4_new (mTransformRoot st)
              else mTransformRoot st) ∧
    ∃ h2,
      resetTransform N x y z h1 = Some (tt, h2) ∧
      only_changes N h1 h2 ∧
      transform_of h2 N
        = Some (mat4_loadTranslate
                  (if has_flag saveFlags kMatrix_SaveFlag
                   then mat4_load mat4_new (mTransformRoot st) else mat4_new)
                  x y z) ∧
      transform_of h2 q = Some (mTransformRoot st).
Proof.
  intros Hq Ht Hc Hp N.
  destruct (Snapshot_copy_post h q sq st sc saveFlags Hq Ht Hc Hp)
    as (sN & Hrun & _ & _ & Htr & _).
  assert (HNq : N ≠ q) by (apply lookup_lt_Some in Hq; subst N; lia).
  assert (HNt : transform sq ≠ N) by (apply lookup_lt_Some in Ht; subst N; lia).
  assert (HN1 : (h ++ [sN]) !! N = Some sN) by (by apply list_lookup_middle).
  assert (Hq1 : (h ++ [sN]) !! q = Some sq) by (by apply lookup_app_l_Some).
  assert (Ht1 : (h ++ [sN]) !! transform sq = Some st) by (by apply lookup_app_l_Some).
  assert (Hparent : transform_of (h ++ [sN]) q = Some (mTransformRoot st)).
  { unfold transform_of. rewrite Hq1. cbn. by rewrite Ht1. }
  exists (h ++ [sN]). split_and!; [done|done| |].
  - unfold transform_of. rewrite HN1. cbn.
    destruct (has_flag saveFlags kMatrix_SaveFlag).
    + destruct Htr as [HtN HrN]. rewrite HtN. fold N. rewrite HN1. cbn.
      by rewrite HrN.
    + destruct Htr as [HtN _]. rewrite HtN. by rewrite Ht1.
  - destruct (resetTransform_frame (h ++ [sN]) N sN x y z HN1)
      as (h2 & Hrun2 & Hfr & HN2).
    exists h2. split_and!; [done|done| |].
    + unfold transform_of. rewrite HN2. cbn. rewrite HN2. cbn.
      by destruct (has_flag saveFlags kMatrix_SaveFlag), Htr as [_ ->].
    + rewrite <- Hparent. by eapply only_changes_transform_of.
Qed.

(** ** What a child inherits *)

(** X12. The copying constructor leaves every existing node as it is and
    places the child at the next index.  The child records its parent,
    copies [fbo], [viewport], [height] and [alpha], carries the
    layer-target flag and the dirty region over exactly when the parent
    has that flag, and has no layer.  Invisibility is inherited but
    emptiness is not: the child's [empty] is false whatever the
    parent's, so [isIgnored] on the child answers the parent's
    [invisible]. *)
Theorem child_inherits h q sq st sc saveFlags :
  h !! q = Some sq → h !! transform sq = Some st → h !! clipRect sq = Some sc →
  (∀ p, clipRegion sq = Some p → is_Some (h !! p)) →
  let N := length h in
  ∃ h1 sN,
    Snapshot_copy q saveFlags h = Some (N, h1) ∧
    (∀ k, k < N → h1 !! k = h !! k) ∧
    h1 !! N = Some sN ∧ length h1 = S N ∧
    previous sN = Some q ∧ layer sN = None ∧
    fbo sN = fbo sq ∧ viewport sN = viewport sq ∧
    height sN = height sq ∧ alpha sN = alpha sq ∧
    invisible sN = invisible sq ∧ empty sN = false ∧
    (flags sN, region sN)
      = (if has_flag (flags sq) kFlagFboTarget
         then (Z.lor 0 kFlagFboTarget, region sq) else (0%Z, None)) ∧
    isIgnored N h1 = Some (invisible sq, h1).
Proof.
  intros Hq Ht Hc Hp N.
  destruct (Snapshot_copy_post h q sq st sc saveFlags Hq Ht Hc Hp)
    as (sN & Hrun & Hfrozen & Hflags & _ & _).
  unfold frozen in Hfrozen.
  injection Hfrozen as Hprev Hlayer Hfbo Hinv Hempty Hview Hheight Halpha Hregion.
  assert (HN1 : (h ++ [sN]) !! N = Some sN) by (by apply list_lookup_middle).
  exists (h ++ [sN]), sN. split_and!; try done.
  - intros k Hk. by apply lookup_app_l.
  - rewrite length_app. cbn. subst N. lia.
  - rewrite Hflags, Hregion. by destruct (has_flag _ _).
  - unfold isIgnored. heap_run. by rewrite Hinv, Hempty, orb_false_r.
Qed.

(** X13. A child built with the clip save flag owns its clip: it starts
    with a copy of the rectangle the parent reads, kept in its own root,
    and from then on no sequence of clip, set-clip and reset-clip calls
    on the child changes any other node, so the parent keeps its
    rectangle and its region. *)
Theorem child_with_clip_flag_is_private h q sq st sc saveFlags :
  h !! q = Some sq → h !! transform sq = Some st → h !! clipRect sq = Some sc →
  (∀ p, clipRegion sq = Some p → is_Some (h !! p)) →
  has_flag saveFlags kClip_SaveFlag = true →
  let N := length h in
  ∃ h1,
    Snapshot_copy q saveFlags h = Some (N, h1) ∧
    clipRect_of h1 N = Some (mClipRectRoot sc) ∧
    clipRect_of h1 q = Some (mClipRectRoot sc) ∧
    clipRegion_of h1 q = clipRegion_of h q ∧
    ∀ cs, ∃ h2, clip_calls N cs h1 = Some (tt, h2) ∧
                only_changes N h1 h2 ∧
                clipRect_of h2 q = Some (mClipRectRoot sc) ∧
                clipRegion_of h2 q = clipRegion_of h q.
Proof.
  intros Hq Ht Hc Hp Hflag N.
  destruct (Snapshot_copy_post h q sq st sc saveFlags Hq Ht Hc Hp)
    as (sN & Hrun & _ & _ & Htr & Hcl).
  rewrite Hflag in Hcl. destruct Hcl as (HcN & HrN & HpN).
  assert (HNq : N ≠ q) by (apply lookup_lt_Some in Hq; subst N; lia).
  assert (HNc : clipRect sq ≠ N) by (apply lookup_lt_Some in Hc; subst N; lia).
  assert (HNp : clipRegion sq ≠ Some N).
  { intros Hp'. destruct (Hp N Hp') as [sp Hsp].
    apply lookup_lt_Some in Hsp. subst N. lia. }
  assert (HN1 : (h ++ [sN]) !! N = Some sN) by (by apply list_lookup_middle).
  assert (Hq1 : (h ++ [sN]) !! q = Some sq) by (by apply lookup_app_l_Some).
  assert (Hc1 : (h ++ [sN]) !! clipRect sq = Some sc) by (by apply lookup_app_l_Some).
  assert (Hrect : clipRect_of (h ++ [sN]) q = Some (mClipRectRoot sc)).
  { unfold clipRect_of. rewrite Hq1. cbn. by rewrite Hc1. }
  assert (Hreg : clipRegion_of (h ++ [sN]) q = clipRegion_of h q).
  { unfold clipRegion_of, region_at. rewrite Hq1, Hq. cbn.
    destruct (clipRegion sq) as [p|] eqn:Hpq; [|done].
    destruct (Hp p eq_refl) as [sp Hsp].
    by rewrite Hsp, (lookup_app_l_Some _ _ _ _ Hsp). }
  assert (Hpriv : clip_private (h ++ [sN]) N).
  { exists sN. split_and!; [done|done| |].
    - destruct (clipRegion sq), stencil; auto. destruct HpN as [-> _]. auto.
    - destruct (has_flag saveFlags kMatrix_SaveFlag).
      + destruct Htr as [-> _]. by exists sN.
      + destruct Htr as [-> _]. exists st. by apply lookup_app_l_Some. }
  exists (h ++ [sN]). split_and!; [done| |done|done|].
  - unfold clipRect_of. rewrite HN1. cbn. rewrite HcN. fold N.
    rewrite HN1. cbn. by rewrite HrN.
  - intros cs.
    destruct (clip_calls_private (h ++ [sN]) N cs Hpriv) as (h2 & Hrun2 & _ & Hfr).
    exists h2. split_and!; [done|done| |].
    + rewrite <- Hrect. by eapply only_changes_clipRect_of.
    + rewrite <- Hreg. by eapply only_changes_clipRegion_of.
Qed.

(** ** Set-clip and reset-clip in full *)

(** X14. [setClip] on a node whose storage exists: the rectangle the
    node reads becomes exactly the given one, the clip flag is set, and
    with region support compiled in the node's region reference becomes
    null and the region it pointed at is cleared.  Nothing is written
    outside the node, the storage of its rectangle and the storage of
    its region, and no node's rectangle pointer changes. *)
Theorem setClip_effect h n s c sc left top right bottom :
  h !! n = Some s → clipRect s = c → h !! c = Some sc →
  (∀ p, clipRegion s = Some p → is_Some (h !! p)) →
  ∃ h', setClip n left top right bottom h = Some (tt, h') ∧
        clipRect_of h' n = Some (Rect.mk left top right bottom) ∧
        flags_of h' n = Some (Z.lor (flags s) kFlagClipSet) ∧
        clipRegion_ptr h' n = Some (if stencil then None else clipRegion s) ∧
        (∀ p sp, stencil = true → clipRegion s = Some p → h !! p = Some sp →
                 region_at h' p = Some (Region_clear (mClipRegionRoot sp))) ∧
        (∀ k, k ≠ n → k ≠ c → clipRegion s ≠ Some k → h' !! k = h !! k) ∧
        (∀ k, clipRect <$> h' !! k = clipRect <$> h !! k).
Proof.
  intros Hn Hc Hsc Hvalid.
  unfold setClip, clipRect_of, flags_of, clipRegion_ptr, region_at.
  destruct stencil eqn:Hst; [destruct (clipRegion s) as [p|] eqn:Hp|].
  - destruct (Hvalid p eq_refl) as [sp Hsp].
    split_ptrs n p c.
    all: heap_run.
    all: eexists; split; [reflexivity|].
    all: split_and!; [solve [heap_run; reflexivity] .. | | |].
    all: try (intros p' sp' _ [= <-] Hsp'; same_cell; heap_run; reflexivity).
    all: try (intros k ? ? ?; by rewrite !list_lookup_alter_ne by congruence).
    all: intros k; by rewrite !fmap_lookup_alter.
  - destruct (decide (c = n)) as [->|?]; same_cell.
    all: heap_run.
    all: eexists; split; [reflexivity|].
    all: split_and!; [solve [heap_run; reflexivity] .. | | |].
    all: try (by intros p' sp' _ [=]).
    all: try (intros k ? ? ?; by rewrite !list_lookup_alter_ne by congruence).
    all: intros k; by rewrite !fmap_lookup_alter.
  - destruct (decide (c = n)) as [->|?]; same_cell.
    all: heap_run.
    all: eexists; split; [reflexivity|].
    all: split_and!; [solve [heap_run; reflexivity] .. | | |].
    all: try (by intros p' sp' [=]).
    all: try (intros k ? ? ?; by rewrite !list_lookup_alter_ne by congruence).
    all: intros k; by rewrite !fmap_lookup_alter.
Qed.

(** X15. [resetClip] detaches any node, borrowed clip or not: afterwards
    the node reads the given rectangle from its own root, holds no
    region reference it does not own, and has the clip flag set.  The
    rectangle it used to borrow is not written.  With region support
    compiled in, the region it pointed at, its own or its parent's, is
    cleared.  No other node is written. *)
Theorem resetClip_effect h n s c sc st left top right bottom :
  h !! n = Some s → clipRect s = c → h !! c = Some sc →
  h !! transform s = Some st →
  (∀ p, clipRegion s = Some p → is_Some (h !! p)) →
  (stencil = false → clipRegion s = None) →
  ∃ h', resetClip n left top right bottom h = Some (tt, h') ∧
        clipRect_of h' n = Some (Rect.mk left top right bottom) ∧
        flags_of h' n = Some (Z.lor (flags s) kFlagClipSet) ∧
        clip_private h' n ∧
        (c ≠ n → mClipRectRoot <$> h' !! c = Some (mClipRectRoot sc)) ∧
        (∀ p sp, clipRegion s = Some p → h !! p = Some sp →
                 region_at h' p = Some (Region_clear (mClipRegionRoot sp))) ∧
        (∀ k, k ≠ n → clipRegion s ≠ Some k → h' !! k = h !! k).
Proof.
  intros Hn Hc Hsc Ht Hvalid Hgate.
  assert (Htv : is_Some (h !! transform s)) by eauto.
  unfold resetClip, setClip, clipRect_of, flags_of, clip_private, region_at.
  destruct (clipRegion s) as [p|] eqn:Hp.
  - assert (Hst : stencil = true) by (destruct stencil; [done|by specialize (Hgate eq_refl)]).
    destruct (Hvalid p eq_refl) as [sp Hsp].
    split_ptrs n p c.
    all: heap_run.
    all: eexists; split; [reflexivity|].
    all: split; [solve [heap_run; reflexivity]|].
    all: split; [solve [heap_run; reflexivity]|].
    all: split;
      [eexists; split_and!;
         [ solve [heap_run; reflexivity] | solve [heap_run; reflexivity]
         | heap_run; auto | heap_run; rewrite ?is_Some_alter; assumption ]|].
    all: split; [intros ?; try done; solve [heap_run; reflexivity]|].
    all: split; [intros p' sp' [= <-] Hsp'; same_cell; heap_run; reflexivity|].
    all: intros k ? ?; by rewrite !list_lookup_alter_ne by congruence.
  - destruct (decide (c = n)) as [->|?]; same_cell.
    all: destruct stencil eqn:Hst.
    all: heap_run.
    all: eexists; split; [reflexivity|].
    all: split; [solve [heap_run; reflexivity]|].
    all: split; [solve [heap_run; reflexivity]|].
    all: split;
      [eexists; split_and!;
         [ solve [heap_run; reflexivity] | solve [heap_run; reflexivity]
         | heap_run; auto | heap_run; rewrite ?is_Some_alter; assumption ]|].
    all: split; [intros ?; try done; solve [heap_run; reflexivity]|].
    all: split; [by intros p' sp' [=]|].
    all: intros k ? ?; by rewrite !list_lookup_alter_ne by congruence.
Qed.

End Verification.

(** * The combinator table on the reference geometry *)

(** On the L-shaped region (the square without its top-left quarter),
    an intersect clip with that quarter ORs it back in: the clip grows
    to the whole square and collapses to a rectangle.  A union clip with
    the top half ANDs it: only the top-right quarter remains. *)
Lemma region_mode_table_on_lshape :
  (∃ w : Scenario.Store,
     clipTransformed (C:=spec_config) 0 (Scenario.Q4 0 0 50 50) kIntersect_Op
       Scenario.lshape = Some (true, w) ∧
     clipRect_of w 0 = Some (Scenario.Q4 0 0 100 100) ∧
     clipRegion_ptr w 0 = Some None) ∧
  (∃ w : Scenario.Store,
     clipTransformed (C:=spec_config) 0 (Scenario.Q4 0 0 100 50) kUnion_Op
       Scenario.lshape = Some (true, w) ∧
     clipRect_of w 0 = Some (Scenario.Q4 50 0 100 50) ∧
     clipRegion_ptr w 0 = Some None).
Proof.
  split; (eexists; split; [vm_lhs; reflexivity|]; split; reflexivity).
Qed.

(** * Behaviour that the general results exclude *)

(** C4. After any public operation the region reference is to be null
    unless the clip is genuinely non-rectangular.  The code departs from
    this on the detach path: [resetClip] re-anchors [clipRect] only, so
    on a child that borrows the L-shaped clip of the root it clears the
    root's region through the borrowed [clipRegion].  The root is then
    queried.  After these public operations the root still holds a
    region reference, and the region behind it is empty. *)
Lemma region_reference_stale :
  ∃ w : Scenario.Store,
    run (C:=spec_config) Scenario.stale_calls [] = Some (tt, w) ∧
    clipRegion_ptr w 0 = Some (Some 0) ∧
    region_at w 0 = Some ([] : SpecRegion.t) ∧
    region_ref_genuine w 0 = false.
Proof.
  eexists. split; [vm_lhs; reflexivity|]. split; [|split]; reflexivity.
Qed.

(** C7, as first stated, fails.  A child built with save flags 0 (no
    clip flag) from the root clipped to (0,0,100,100) borrows the root's
    rectangle; a set-clip or an intersect clip on the child changes the
    rectangle the root reads. *)
Lemma borrowed_clip_reaches_parent :
  has_flag 0 (kClip_SaveFlag (Config:=spec_config)) = false ∧
  ∃ w1 w2 w3 : Scenario.Store,
    Snapshot_copy (C:=spec_config) 0 0 Scenario.square = Some (1, w1) ∧
    clipRect_of w1 0 = Some (Scenario.Q4 0 0 100 100) ∧
    setClip (C:=spec_config) 1 0%Q 0%Q 10%Q 10%Q w1 = Some (tt, w2) ∧
    clipRect_of w2 0 = Some (Scenario.Q4 0 0 10 10) ∧
    clip (C:=spec_config) 1 0%Q 0%Q 50%Q 50%Q kIntersect_Op w1 = Some (true, w3) ∧
    clipRect_of w3 0 = Some (Scenario.Q4 0 0 50 50).
Proof.
  split; [reflexivity|]. eexists _, _, _.
  split; [vm_lhs; reflexivity|]. split; [reflexivity|].
  split; [vm_lhs; reflexivity|]. split; [reflexivity|].
  split; [vm_lhs; reflexivity|]. reflexivity.
Qed.

(** * The general results at work on the scenarios *)

Lemma isIgnored_iff_witness :
  Scenario.square !! 0 = Some Scenario.square_root ∧
  (isIgnored 0 Scenario.square = Some (false, Scenario.square) ↔
   invisible Scenario.square_root = false ∧ empty Scenario.square_root = false).
Proof.
  split; [reflexivity|].
  exact (proj2 (isIgnored_iff Scenario.square 0 Scenario.square_root eq_refl)).
Defined.

Lemma reverse_difference_noop_witness :
  Scenario.square !! 0 = Some Scenario.square_root ∧
  Scenario.square !! transform Scenario.square_root = Some Scenario.square_root ∧
  clip (C:=spec_config) 0 0%Q 0%Q 50%Q 50%Q kReverseDifference_Op Scenario.square
    = Some (false, Scenario.square).
Proof.
  split; [reflexivity|]. split; [reflexivity|].
  exact (proj2 (reverse_difference_noop (C:=spec_config) Scenario.square 0
                  (Scenario.Q4 0 0 50 50))
           Scenario.square_root Scenario.square_root 0%Q 0%Q 50%Q 50%Q eq_refl eq_refl).
Defined.

Lemma region_mode_combinators_witness :
  stencil (H:=spec_config) = true ∧
  Scenario.lshape !! 0 = Some Scenario.lshape_root ∧
  clipRegion Scenario.lshape_root = Some 0 ∧
  clipRect Scenario.lshape_root = 0 ∧
  Rect_fits_int32 (Scenario.Q4 0 0 50 50) = true ∧
  ∃ w, clipTransformed (C:=spec_config) 0 (Scenario.Q4 0 0 50 50) kIntersect_Op
         Scenario.lshape = Some (true, w) ∧
       collapsed (C:=spec_config)
         (Region_orSelf (mClipRegionRoot Scenario.lshape_root)
                        (ARect_of_Rect (Scenario.Q4 0 0 50 50)))
         (mClipRectRoot Scenario.lshape_root) (flags Scenario.lshape_root) 0 0 w.
Proof.
  split; [reflexivity|]. split; [reflexivity|].
  split; [reflexivity|]. split; [reflexivity|]. split; [reflexivity|].
  exact (proj1 (region_mode_combinators (C:=spec_config) Scenario.lshape 0
                  Scenario.lshape_root 0 0 Scenario.lshape_root Scenario.lshape_root
                  (Scenario.Q4 0 0 50 50) eq_refl eq_refl eq_refl eq_refl eq_refl eq_refl
                  eq_refl)).
Defined.

Lemma difference_clip_witness :
  stencil (H:=spec_config) = true ∧
  Scenario.square !! 0 = Some Scenario.square_root ∧
  clipRect Scenario.square_root = 0 ∧
  clipRegion Scenario.square_root = None ∧
  Rect_fits_int32 (Scenario.Q4 0 0 50 50) = true ∧
  Rect_fits_int32 (mClipRectRoot Scenario.square_root) = true ∧
  ∃ w, clipTransformed (C:=spec_config) 0 (Scenario.Q4 0 0 50 50) kDifference_Op
         Scenario.square = Some (true, w) ∧
       collapsed (C:=spec_config)
         (Region_subtractSelf
            (Region_set (mClipRegionRoot Scenario.square_root)
                        (ARect_of_Rect (mClipRectRoot Scenario.square_root)))
            (ARect_of_Rect (Scenario.Q4 0 0 50 50)))
         (mClipRectRoot Scenario.square_root) (flags Scenario.square_root) 0 0 w.
Proof.
  split; [reflexivity|]. split; [reflexivity|].
  split; [reflexivity|]. split; [reflexivity|].
  split; [reflexivity|]. split; [reflexivity|].
  exact (proj1 (difference_clip (G:=spec_geometry) (C:=spec_config)) Scenario.square 0
           Scenario.square_root 0 Scenario.square_root (Scenario.Q4 0 0 50 50)
           eq_refl eq_refl eq_refl eq_refl eq_refl eq_refl).
Defined.

Lemma intersect_rectangle_mode_witness :
  Scenario.square !! 0 = Some Scenario.square_root ∧
  clipRegion Scenario.square_root = None ∧
  clipRect Scenario.square_root = 0 ∧
  ∃ w, clipTransformed (C:=spec_config) 0 (Scenario.Q4 50 (-10) 150 50) kIntersect_Op
         Scenario.square = Some (true, w) ∧
       clipRect_of w 0 = Some (Scenario.Q4 50 0 100 50).
Proof.
  split; [reflexivity|]. split; [reflexivity|]. split; [reflexivity|].
  destruct (proj1 (intersect_rectangle_mode (G:=spec_geometry) (C:=spec_config))
              Scenario.square 0 Scenario.square_root 0 Scenario.square_root
              (Scenario.Q4 50 (-10) 150 50) eq_refl eq_refl eq_refl eq_refl)
    as (w & Hrun & Hrect & _).
  exists w. split; [exact Hrun|exact Hrect].
Defined.

Lemma collapse_rule_witness :
  Scenario.lshape !! 0 = Some Scenario.lshape_root ∧
  clipRect Scenario.lshape_root = 0 ∧
  (∀ p, clipRegion Scenario.lshape_root = Some p → is_Some (Scenario.lshape !! p)) ∧
  (stencil (H:=spec_config) = false → clipRegion Scenario.lshape_root = None) ∧
  ∃ b w, clipTransformed (C:=spec_config) 0 (Scenario.Q4 0 0 100 50) kDifference_Op
           Scenario.lshape = Some (b, w) ∧
         region_ref_genuine w 0 = true.
Proof.
  assert (Hvalid : ∀ p, clipRegion Scenario.lshape_root = Some p →
                        is_Some (Scenario.lshape !! p)).
  { intros p [= <-]. exists Scenario.lshape_root. reflexivity. }
  assert (Hgate : stencil (H:=spec_config) = false →
                  clipRegion Scenario.lshape_root = None).
  { intros [=]. }
  split; [reflexivity|]. split; [reflexivity|].
  split; [exact Hvalid|]. split; [exact Hgate|].
  refine (proj1 (proj2 (collapse_rule (C:=spec_config) Scenario.lshape 0
                          Scenario.lshape_root 0 Scenario.lshape_root
                          eq_refl eq_refl eq_refl Hvalid Hgate))
            (Scenario.Q4 0 0 100 50) kDifference_Op _).
  intros [=].
Defined.

Lemma region_support_disabled_witness :
  STENCIL_BUFFER_SIZE (Config:=spec_config_no_stencil) = 0%Z ∧
  clipTransformed (C:=spec_config_no_stencil) 0 (Scenario.Q4 0 0 100 50) kDifference_Op
    Scenario.square_no_stencil = Some (false, Scenario.square_no_stencil).
Proof.
  split; [reflexivity|].
  exact (proj1 (region_support_disabled (G:=spec_geometry) (C:=spec_config_no_stencil)
                  Scenario.square_no_stencil 0 (Scenario.Q4 0 0 100 50) eq_refl)).
Defined.

Lemma explicit_detach_witness :
  Scenario.square !! 0 = Some Scenario.square_root ∧
  Scenario.square !! clipRect Scenario.square_root = Some Scenario.square_root ∧
  is_Some (Scenario.square !! transform Scenario.square_root) ∧
  (∀ p, clipRegion Scenario.square_root = Some p → is_Some (Scenario.square !! p)) ∧
  has_flag 0 (kClip_SaveFlag (Config:=spec_config)) = false ∧
  ∃ w1, Snapshot_copy (C:=spec_config) 0 0 Scenario.square = Some (1, w1) ∧
        ∃ w2, resetClip (C:=spec_config) 1 0%Q 0%Q 10%Q 10%Q w1 = Some (tt, w2) ∧
              clipRect_of w2 0 = Some (Scenario.Q4 0 0 100 100) ∧
              clipRect_of w2 1 = Some (Scenario.Q4 0 0 10 10).
Proof.
  assert (Ht : is_Some (Scenario.square !! transform Scenario.square_root)).
  { exists Scenario.square_root. reflexivity. }
  assert (Hvalid : ∀ p, clipRegion Scenario.square_root = Some p →
                        is_Some (Scenario.square !! p)).
  { intros p [=]. }
  split; [reflexivity|]. split; [reflexivity|].
  split; [exact Ht|]. split; [exact Hvalid|]. split; [reflexivity|].
  destruct (explicit_detach (C:=spec_config) Scenario.square 0 Scenario.square_root
              Scenario.square_root 0 eq_refl eq_refl Ht Hvalid eq_refl)
    as (w1 & Hrun & _ & _ & _ & Hreset).
  exists w1. split; [exact Hrun|].
  destruct (Hreset 0%Q 0%Q 10%Q 10%Q) as (w2 & Hrun2 & Hq & HN & _).
  exists w2. split; [exact Hrun2|]. split; [exact Hq|exact HN].
Defined.

Lemma local_clip_witness :
  Scenario.small_square !! 0 = Some Scenario.small_square_root ∧
  Scenario.small_square !! transform Scenario.small_square_root
    = Some Scenario.small_square_root ∧
  Scenario.small_square !! clipRect Scenario.small_square_root
    = Some Scenario.small_square_root ∧
  ∃ w, getLocalClip 0 Scenario.small_square = Some (Scenario.Q4 10 10 20 20, w).
Proof.
  split; [reflexivity|]. split; [reflexivity|]. split; [reflexivity|].
  destruct (proj1 (local_clip (G:=spec_geometry))
              Scenario.small_square 0 Scenario.small_square_root
              Scenario.small_square_root Scenario.small_square_root
              eq_refl eq_refl eq_refl)
    as (w & Hrun & _).
  exists w. exact Hrun.
Defined.

Lemma empty_never_set_witness :
  empty_clear ([] : Scenario.Store) ∧
  run (C:=spec_config) Scenario.square_calls [] = Some (tt, Scenario.square) ∧
  Scenario.square !! 0 = Some Scenario.square_root ∧
  empty Scenario.square_root = false ∧
  isIgnored 0 Scenario.square
    = Some (invisible Scenario.square_root, Scenario.square).
Proof.
  assert (Hnil : empty_clear ([] : Scenario.Store)).
  { intros k s Hk. destruct k; discriminate Hk. }
  split; [exact Hnil|]. split; [reflexivity|]. split; [reflexivity|].
  exact (empty_never_set (C:=spec_config) Scenario.square_calls [] Scenario.square
           Hnil eq_refl 0 Scenario.square_root eq_refl).
Defined.

(** * The further properties at work on the scenarios *)

Lemma constructor_fields_frozen_witness :
  Scenario.square !! 0 = Some Scenario.square_root ∧
  run (C:=spec_config)
      [DoClipTransformed 0 (Scenario.Q4 0 0 50 50) kDifference_Op] Scenario.square
    = Some (tt, Scenario.lshape) ∧
  ∃ s', Scenario.lshape !! 0 = Some s' ∧ frozen s' = frozen Scenario.square_root.
Proof.
  split; [reflexivity|]. split; [reflexivity|].
  exact (constructor_fields_frozen (C:=spec_config)
           [DoClipTransformed 0 (Scenario.Q4 0 0 50 50) kDifference_Op]
           Scenario.square Scenario.lshape 0 Scenario.square_root eq_refl eq_refl).
Defined.

Lemma flags_never_cleared_witness :
  Scenario.square !! 0 = Some Scenario.square_root ∧
  Z.testbit (flags Scenario.square_root) 0 = true ∧
  run (C:=spec_config)
      [DoClipTransformed 0 (Scenario.Q4 0 0 50 50) kReverseDifference_Op]
      Scenario.square
    = Some (tt, Scenario.square) ∧
  ∃ s', Scenario.square !! 0 = Some s' ∧ Z.testbit (flags s') 0 = true.
Proof.
  split; [reflexivity|]. split; [reflexivity|]. split; [reflexivity|].
  exact (flags_never_cleared (C:=spec_config)
           [DoClipTransformed 0 (Scenario.Q4 0 0 50 50) kReverseDifference_Op]
           Scenario.square Scenario.square 0 Scenario.square_root 0%Z
           eq_refl eq_refl eq_refl).
Defined.

Lemma transform_changes_only_by_reset_witness :
  Scenario.borrower !! 1 = Some Scenario.borrower_child ∧
  transform Scenario.borrower_child = 0 ∧
  existsb (resets_transform 1) [DoResetTransform 0 5%Q 3%Q 0%Q] = false ∧
  ∃ w : Scenario.Store,
    run (C:=spec_config) [DoResetTransform 0 5%Q 3%Q 0%Q] Scenario.borrower
      = Some (tt, w) ∧
    ∃ s', w !! 1 = Some s' ∧ transform s' = 0 ∧
          mTransformRoot s' = mTransformRoot Scenario.borrower_child.
Proof.
  split; [reflexivity|]. split; [reflexivity|]. split; [reflexivity|].
  eexists. split; [vm_lhs; reflexivity|].
  refine (proj1 (transform_changes_only_by_reset (C:=spec_config)
                   [DoResetTransform 0 5%Q 3%Q 0%Q]
                   Scenario.borrower _ 1 Scenario.borrower_child
                   eq_refl eq_refl _)).
  vm_lhs; reflexivity.
Defined.

Lemma public_calls_never_fault_witness :
  well_formed ([] : Scenario.Store) ∧
  calls_valid 0 Scenario.stale_calls = true ∧
  ∃ w : Scenario.Store,
    run (C:=spec_config) Scenario.stale_calls [] = Some (tt, w) ∧
    well_formed w ∧ length w = 2.
Proof.
  assert (Hnil : well_formed ([] : Scenario.Store)).
  { intros k s Hk. destruct k; discriminate Hk. }
  split; [exact Hnil|]. split; [reflexivity|].
  exact (public_calls_never_fault (C:=spec_config) Scenario.stale_calls []
           Hnil eq_refl).
Defined.

Lemma clip_flag_follows_result_witness :
  Scenario.square !! 0 = Some Scenario.square_root ∧
  Scenario.square !! transform Scenario.square_root = Some Scenario.square_root ∧
  Scenario.square !! clipRect Scenario.square_root = Some Scenario.square_root ∧
  (∀ p, clipRegion Scenario.square_root = Some p → is_Some (Scenario.square !! p)) ∧
  ∃ b w, clipTransformed (C:=spec_config) 0 (Scenario.Q4 0 0 50 50) kUnion_Op
           Scenario.square = Some (b, w) ∧
         flags_of w 0
           = Some (if b
                   then Z.lor (flags Scenario.square_root)
                              (kFlagClipSet (Config:=spec_config))
                   else flags Scenario.square_root).
Proof.
  assert (Hvalid : ∀ p, clipRegion Scenario.square_root = Some p →
                        is_Some (Scenario.square !! p)).
  { intros p [=]. }
  split; [reflexivity|]. split; [reflexivity|]. split; [reflexivity|].
  split; [exact Hvalid|].
  exact (proj1 (clip_flag_follows_result (C:=spec_config) Scenario.square 0
                  Scenario.square_root Scenario.square_root Scenario.square_root
                  (Scenario.Q4 0 0 50 50) 0%Q 0%Q 50%Q 50%Q kUnion_Op
                  eq_refl eq_refl eq_refl Hvalid)).
Defined.

Lemma xor_clip_witness :
  stencil (H:=spec_config) = true ∧
  Scenario.square !! 0 = Some Scenario.square_root ∧
  clipRect Scenario.square_root = 0 ∧
  clipRegion Scenario.square_root = None ∧
  Rect_fits_int32 (Scenario.Q4 0 0 50 50) = true ∧
  Rect_fits_int32 (mClipRectRoot Scenario.square_root) = true ∧
  ∃ w, clipTransformed (C:=spec_config) 0 (Scenario.Q4 0 0 50 50) kXOR_Op
         Scenario.square = Some (true, w) ∧
       collapsed (C:=spec_config)
         (Region_xorSelf
            (Region_set (mClipRegionRoot Scenario.square_root)
                        (ARect_of_Rect (mClipRectRoot Scenario.square_root)))
            (ARect_of_Rect (Scenario.Q4 0 0 50 50)))
         (mClipRectRoot Scenario.square_root) (flags Scenario.square_root) 0 0 w.
Proof.
  split; [reflexivity|]. split; [reflexivity|].
  split; [reflexivity|]. split; [reflexivity|].
  split; [reflexivity|]. split; [reflexivity|].
  exact (xor_clip (G:=spec_geometry) (C:=spec_config) Scenario.square 0
           Scenario.square_root 0 Scenario.square_root (Scenario.Q4 0 0 50 50)
           eq_refl eq_refl eq_refl eq_refl eq_refl eq_refl).
Defined.

Lemma union_rectangle_mode_witness :
  Scenario.small_square !! 0 = Some Scenario.small_square_root ∧
  clipRegion Scenario.small_square_root = None ∧
  clipRect Scenario.small_square_root = 0 ∧
  ∃ w, clipTransformed (C:=spec_config) 0 (Scenario.Q4 0 0 50 50) kUnion_Op
         Scenario.small_square
         = Some (fst (Rect_unionWith (Geometry:=spec_geometry)
                   (mClipRectRoot Scenario.small_square_root)
                                     (Scenario.Q4 0 0 50 50)), w) ∧
       clipRect_of w 0
         = Some (snd (Rect_unionWith (Geometry:=spec_geometry)
                   (mClipRectRoot Scenario.small_square_root)
                                     (Scenario.Q4 0 0 50 50))).
Proof.
  split; [reflexivity|]. split; [reflexivity|]. split; [reflexivity|].
  destruct (union_rectangle_mode (G:=spec_geometry) (C:=spec_config)
              Scenario.small_square 0 Scenario.small_square_root 0
              Scenario.small_square_root (Scenario.Q4 0 0 50 50)
              eq_refl eq_refl eq_refl eq_refl)
    as (w & Hrun & Hrect & _).
  exists w. split; [exact Hrun|exact Hrect].
Defined.

Lemma region_mode_only_by_difference_or_xor_witness :
  no_region ([] : Scenario.Store) ∧
  existsb enters_region_mode Scenario.square_calls = false ∧
  run (C:=spec_config) Scenario.square_calls [] = Some (tt, Scenario.square) ∧
  no_region Scenario.square.
Proof.
  assert (Hnil : no_region ([] : Scenario.Store)).
  { intros k s Hk. destruct k; discriminate Hk. }
  split; [exact Hnil|]. split; [reflexivity|]. split; [reflexivity|].
  exact (region_mode_only_by_difference_or_xor (C:=spec_config)
           Scenario.square_calls [] Scenario.square Hnil eq_refl eq_refl).
Defined.

Lemma getLocalClip_repeatable_witness :
  Scenario.small_square !! 0 = Some Scenario.small_square_root ∧
  Scenario.small_square !! transform Scenario.small_square_root
    = Some Scenario.small_square_root ∧
  Scenario.small_square !! clipRect Scenario.small_square_root
    = Some Scenario.small_square_root ∧
  ∃ r (w : Scenario.Store),
    getLocalClip 0 Scenario.small_square = Some (r, w) ∧
    getLocalClip 0 w = Some (r, w).
Proof.
  split; [reflexivity|]. split; [reflexivity|]. split; [reflexivity|].
  destruct (getLocalClip_repeatable (G:=spec_geometry)
              Scenario.small_square 0 Scenario.small_square_root 0 0
              Scenario.small_square_root Scenario.small_square_root
              eq_refl eq_refl eq_refl eq_refl eq_refl)
    as (r & w & Hrun & _ & Hagain).
  exists r, w. split; [exact Hrun|exact Hagain].
Defined.

Lemma child_transform_witness :
  Scenario.square !! 0 = Some Scenario.square_root ∧
  Scenario.square !! transform Scenario.square_root = Some Scenario.square_root ∧
  Scenario.square !! clipRect Scenario.square_root = Some Scenario.square_root ∧
  (∀ p, clipRegion Scenario.square_root = Some p → is_Some (Scenario.square !! p)) ∧
  ∃ w1, Snapshot_copy (C:=spec_config) 0 1 Scenario.square = Some (1, w1) ∧
        transform_of w1 0 = Some (mTransformRoot Scenario.square_root) ∧
        ∃ w2, resetTransform 1 5%Q 3%Q 0%Q w1 = Some (tt, w2) ∧
              transform_of w2 0 = Some (mTransformRoot Scenario.square_root).
Proof.
  assert (Hvalid : ∀ p, clipRegion Scenario.square_root = Some p →
                        is_Some (Scenario.square !! p)).
  { intros p [=]. }
  split; [reflexivity|]. split; [reflexivity|]. split; [reflexivity|].
  split; [exact Hvalid|].
  destruct (child_transform (C:=spec_config) Scenario.square 0
              Scenario.square_root Scenario.square_root Scenario.square_root
              1 5%Q 3%Q 0%Q eq_refl eq_refl eq_refl Hvalid)
    as (w1 & Hrun & Hq & _ & w2 & Hrun2 & _ & _ & Hq2).
  exists w1. split; [exact Hrun|]. split; [exact Hq|].
  exists w2. split; [exact Hrun2|exact Hq2].
Defined.

Lemma child_inherits_witness :
  Scenario.square !! 0 = Some Scenario.square_root ∧
  Scenario.square !! transform Scenario.square_root = Some Scenario.square_root ∧
  Scenario.square !! clipRect Scenario.square_root = Some Scenario.square_root ∧
  (∀ p, clipRegion Scenario.square_root = Some p → is_Some (Scenario.square !! p)) ∧
  ∃ w1 sN, Snapshot_copy (C:=spec_config) 0 0 Scenario.square = Some (1, w1) ∧
           w1 !! 1 = Some sN ∧ previous sN = Some 0 ∧ empty sN = false ∧
           isIgnored 1 w1 = Some (invisible Scenario.square_root, w1).
Proof.
  assert (Hvalid : ∀ p, clipRegion Scenario.square_root = Some p →
                        is_Some (Scenario.square !! p)).
  { intros p [=]. }
  split; [reflexivity|]. split; [reflexivity|]. split; [reflexivity|].
  split; [exact Hvalid|].
  destruct (child_inherits (C:=spec_config) Scenario.square 0
              Scenario.square_root Scenario.square_root Scenario.square_root
              0 eq_refl eq_refl eq_refl Hvalid)
    as (w1 & sN & Hrun & _ & HN & _ & Hprev & _ & _ & _ & _ & _ & _ & Hempty
        & _ & Hign).
  exists w1, sN. split; [exact Hrun|]. split; [exact HN|].
  split; [exact Hprev|]. split; [exact Hempty|exact Hign].
Defined.

Lemma child_with_clip_flag_is_private_witness :
  Scenario.lshape !! 0 = Some Scenario.lshape_root ∧
  Scenario.lshape !! transform Scenario.lshape_root = Some Scenario.lshape_root ∧
  Scenario.lshape !! clipRect Scenario.lshape_root = Some Scenario.lshape_root ∧
  (∀ p, clipRegion Scenario.lshape_root = Some p → is_Some (Scenario.lshape !! p)) ∧
  has_flag 2 (kClip_SaveFlag (Config:=spec_config)) = true ∧
  ∃ w1, Snapshot_copy (C:=spec_config) 0 2 Scenario.lshape = Some (1, w1) ∧
        ∃ w2, clip_calls (C:=spec_config) 1
                [BySetClip 0%Q 0%Q 10%Q 10%Q] w1 = Some (tt, w2) ∧
              clipRect_of w2 0 = Some (mClipRectRoot Scenario.lshape_root) ∧
              clipRegion_of w2 0 = clipRegion_of Scenario.lshape 0.
Proof.
  assert (Hvalid : ∀ p, clipRegion Scenario.lshape_root = Some p →
                        is_Some (Scenario.lshape !! p)).
  { intros p [= <-]. exists Scenario.lshape_root. reflexivity. }
  split; [reflexivity|]. split; [reflexivity|]. split; [reflexivity|].
  split; [exact Hvalid|]. split; [reflexivity|].
  destruct (child_with_clip_flag_is_private (C:=spec_config) Scenario.lshape 0
              Scenario.lshape_root Scenario.lshape_root Scenario.lshape_root
              2 eq_refl eq_refl eq_refl Hvalid eq_refl)
    as (w1 & Hrun & _ & _ & _ & Hcalls).
  exists w1. split; [exact Hrun|].
  destruct (Hcalls [BySetClip 0%Q 0%Q 10%Q 10%Q]) as (w2 & Hrun2 & _ & Hq & Hrg).
  exists w2. split; [exact Hrun2|]. split; [exact Hq|exact Hrg].
Defined.

Lemma setClip_effect_witness :
  Scenario.lshape !! 0 = Some Scenario.lshape_root ∧
  clipRect Scenario.lshape_root = 0 ∧
  (∀ p, clipRegion Scenario.lshape_root = Some p → is_Some (Scenario.lshape !! p)) ∧
  ∃ w, setClip (C:=spec_config) 0 0%Q 0%Q 10%Q 10%Q Scenario.lshape = Some (tt, w) ∧
       clipRect_of w 0 = Some (Scenario.Q4 0 0 10 10) ∧
       clipRegion_ptr w 0 = Some None.
Proof.
  assert (Hvalid : ∀ p, clipRegion Scenario.lshape_root = Some p →
                        is_Some (Scenario.lshape !! p)).
  { intros p [= <-]. exists Scenario.lshape_root. reflexivity. }
  split; [reflexivity|]. split; [reflexivity|]. split; [exact Hvalid|].
  destruct (setClip_effect (C:=spec_config) Scenario.lshape 0 Scenario.lshape_root
              0 Scenario.lshape_root 0%Q 0%Q 10%Q 10%Q eq_refl eq_refl eq_refl Hvalid)
    as (w & Hrun & Hrect & _ & Hptr & _).
  exists w. split; [exact Hrun|]. split; [exact Hrect|exact Hptr].
Defined.

Lemma resetClip_effect_witness :
  Scenario.lshape !! 0 = Some Scenario.lshape_root ∧
  clipRect Scenario.lshape_root = 0 ∧
  Scenario.lshape !! transform Scenario.lshape_root = Some Scenario.lshape_root ∧
  (∀ p, clipRegion Scenario.lshape_root = Some p → is_Some (Scenario.lshape !! p)) ∧
  (stencil (H:=spec_config) = false → clipRegion Scenario.lshape_root = None) ∧
  ∃ w, resetClip (C:=spec_config) 0 0%Q 0%Q 10%Q 10%Q Scenario.lshape = Some (tt, w) ∧
       clipRect_of w 0 = Some (Scenario.Q4 0 0 10 10) ∧
       clip_private w 0.
Proof.
  assert (Hvalid : ∀ p, clipRegion Scenario.lshape_root = Some p →
                        is_Some (Scenario.lshape !! p)).
  { intros p [= <-]. exists Scenario.lshape_root. reflexivity. }
  assert (Hgate : stencil (H:=spec_config) = false →
                  clipRegion Scenario.lshape_root = None).
  { intros [=]. }
  split; [reflexivity|]. split; [reflexivity|]. split; [reflexivity|].
  split; [exact Hvalid|]. split; [exact Hgate|].
  destruct (resetClip_effect (C:=spec_config) Scenario.lshape 0 Scenario.lshape_root
              0 Scenario.lshape_root Scenario.lshape_root 0%Q 0%Q 10%Q 10%Q
              eq_refl eq_refl eq_refl eq_refl Hvalid Hgate)
    as (w & Hrun & Hrect & _ & Hpriv & _).
  exists w. split; [exact Hrun|]. split; [exact Hrect|exact Hpriv].
Defined.
